(** * Podcast_Collector: a shallow embedding of [podcast_get.py]

    The development follows the script top to bottom: Python strings and
    bytes, the part of the [re] module the script relies on, the pure
    helpers ([clean_filename], [out_date], [date_sort]), and then the
    effectful functions ([get_rss], [process_podcast], [main]) over an
    explicit world (file system, trace of effects). *)

From Stdlib Require Import String Ascii.
From stdpp Require Import strings gmap list sorting.

Local Open Scope N_scope.

(** ** Python strings and bytes

    A Python [str] is a sequence of Unicode code points; a [bytes] object
    is a sequence of bytes, for which Rocq's [string] is used. *)

Abbreviation char := N (only parsing).
Abbreviation pystr := (list N) (only parsing).
Abbreviation bytes := string (only parsing).

Fixpoint bytes_to_list (b : bytes) : list N :=
  match b with
  | EmptyString => []
  | String a b' => N_of_ascii a :: bytes_to_list b'
  end.

Definition is_cont (b : N) : bool := (128 <=? b) && (b <? 192).

(** [bytes.decode("UTF-8")], strict: overlong forms, surrogates and code
    points above U+10FFFF are rejected ([None] stands for
    [UnicodeDecodeError]). *)
Fixpoint utf8_decode (bs : list N) : option pystr :=
  match bs with
  | [] => Some []
  | b0 :: t0 =>
    if b0 <? 128 then cons b0 <$> utf8_decode t0
    else if (194 <=? b0) && (b0 <? 224) then
      match t0 with
      | b1 :: t1 =>
        if is_cont b1
        then cons ((b0 - 192) * 64 + (b1 - 128)) <$> utf8_decode t1
        else None
      | _ => None
      end
    else if (224 <=? b0) && (b0 <? 240) then
      match t0 with
      | b1 :: b2 :: t2 =>
        let c := (b0 - 224) * 4096 + (b1 - 128) * 64 + (b2 - 128) in
        if is_cont b1 && is_cont b2 && (2048 <=? c)
           && negb ((55296 <=? c) && (c <? 57344))
        then cons c <$> utf8_decode t2
        else None
      | _ => None
      end
    else if (240 <=? b0) && (b0 <? 245) then
      match t0 with
      | b1 :: b2 :: b3 :: t3 =>
        let c := (b0 - 240) * 262144 + (b1 - 128) * 4096
                 + (b2 - 128) * 64 + (b3 - 128) in
        if is_cont b1 && is_cont b2 && is_cont b3
           && (65536 <=? c) && (c <? 1114112)
        then cons c <$> utf8_decode t3
        else None
      | _ => None
      end
    else None
  end.

Definition decode (b : bytes) : option pystr := utf8_decode (bytes_to_list b).

(** A string literal of the script, written in this file as its UTF-8
    text. *)
Definition py (lit : string) : pystr := default [] (decode lit).

(** [str.isspace] on one code point, which is also what [\s] matches in a
    [str] pattern. *)
Definition is_space (c : char) : bool :=
  ((9 <=? c) && (c <=? 13)) || ((28 <=? c) && (c <=? 32))
  || (c =? 133) || (c =? 160) || (c =? 5760)
  || ((8192 <=? c) && (c <=? 8202))
  || (c =? 8232) || (c =? 8233) || (c =? 8239) || (c =? 8287)
  || (c =? 12288).

(** [str.lower] on one code point, for Basic Latin, Latin-1 and the two
    Latin Extended-A capitals that occur in the script's constant; the
    script lowers nothing else. *)
Definition lower_char (c : char) : char :=
  if (65 <=? c) && (c <=? 90) then c + 32
  else if (192 <=? c) && (c <=? 222) && negb (c =? 215) then c + 32
  else if c =? 338 then 339
  else if c =? 376 then 255
  else c.

Definition lower (s : pystr) : pystr := lower_char <$> s.

(** ** The [re] module

    Compiled patterns are abstract syntax; [re.compile] on the pattern
    text is not modelled.  Groups are numbered by the position of their
    opening parenthesis, as [re] does. *)

Inductive regex : Type :=
| Empty
| Lit (c : char)
| Dot
| Space
| OneOf (cs : pystr)
| NoneOf (cs : pystr)
| Seq (r1 r2 : regex)
| Alt (r1 r2 : regex)
| Star (r : regex)
| Group (r : regex).

Definition Plus (r : regex) : regex := Seq r (Star r).

Fixpoint lits (s : pystr) : regex :=
  match s with
  | [] => Empty
  | [c] => Lit c
  | c :: t => Seq (Lit c) (lits t)
  end.

Fixpoint ngroups (r : regex) : nat :=
  match r with
  | Seq r1 r2 | Alt r1 r2 => (ngroups r1 + ngroups r2)%nat
  | Star r' => ngroups r'
  | Group r' => S (ngroups r')
  | _ => 0%nat
  end.

Section Matcher.
Context {R : Type}.

(** The continuation receives the rest of the subject and the captures. *)
Definition kont : Type := pystr → gmap nat pystr → option R.

Definition one_char (p : char → bool) (s : pystr) (caps : gmap nat pystr)
    (k : kont) : option R :=
  match s with
  | c :: t => if p c then k t caps else None
  | [] => None
  end.

(** Greedy repetition: one more iteration first, the tail on failure.  An
    iteration that consumes nothing is not repeated. *)
Fixpoint star_loop (body : pystr → gmap nat pystr → kont → option R)
    (k : kont) (n : nat) (s : pystr) (caps : gmap nat pystr) : option R :=
  match n with
  | O => k s caps
  | S n' =>
    match body s caps (λ s' caps',
            if (length s' <? length s)%nat
            then star_loop body k n' s' caps' else None) with
    | Some x => Some x
    | None => k s caps
    end
  end.

(** Backtracking matcher at the head of [s]; [base] is the number of
    groups opened to the left of [r]. *)
Fixpoint rmatch (r : regex) (base : nat) (s : pystr)
    (caps : gmap nat pystr) (k : kont) {struct r} : option R :=
  match r with
  | Empty => k s caps
  | Lit c => one_char (N.eqb c) s caps k
  | Dot => one_char (λ x, negb (x =? 10)) s caps k
  | Space => one_char is_space s caps k
  | OneOf cs => one_char (λ x, bool_decide (x ∈ cs)) s caps k
  | NoneOf cs => one_char (λ x, bool_decide (x ∉ cs)) s caps k
  | Seq r1 r2 =>
    rmatch r1 base s caps (λ s' caps',
      rmatch r2 (base + ngroups r1) s' caps' k)
  | Alt r1 r2 =>
    match rmatch r1 base s caps k with
    | Some x => Some x
    | None => rmatch r2 (base + ngroups r1) s caps k
    end
  | Star r' => star_loop (rmatch r' base) k (length s) s caps
  | Group r' =>
    rmatch r' (S base) s caps (λ s' caps',
      k s' (<[S base := take (length s - length s') s]> caps'))
  end.
End Matcher.

(** One attempt at the head of [s]; with [must_advance] an empty match is
    refused (the engine's rule after an empty match). *)
Definition match_at (r : regex) (s : pystr) (must_advance : bool)
    : option (pystr * gmap nat pystr) :=
  rmatch r 0 s ∅ (λ s' caps,
    if must_advance && (length s' =? length s)%nat then None
    else Some (s', caps)).

Record hit : Type := Hit {
  hit_pre : pystr;              (* text skipped before the match *)
  hit_text : pystr;             (* the matched text *)
  hit_caps : gmap nat pystr;    (* captured groups *)
}.

(** Leftmost match in [s]: [must_advance] only constrains the first
    position tried. *)
Fixpoint search (r : regex) (s : pystr) (must_advance : bool)
    : option (hit * pystr) :=
  match match_at r s must_advance with
  | Some (s', caps) => Some (Hit [] (take (length s - length s') s) caps, s')
  | None =>
    match s with
    | [] => None
    | c :: t =>
      match search r t false with
      | Some (h, rest) =>
        Some (Hit (c :: hit_pre h) (hit_text h) (hit_caps h), rest)
      | None => None
      end
    end
  end.

Definition is_nil {A : Type} (l : list A) : bool :=
  match l with [] => true | _ => false end.

(** The loop shared by [findall] and [sub]: successive non-overlapping
    matches and the text left after the last one. *)
Fixpoint scan (fuel : nat) (r : regex) (s : pystr) (must_advance : bool)
    : list hit * pystr :=
  match fuel with
  | O => ([], s)
  | S fuel' =>
    match search r s must_advance with
    | None => ([], s)
    | Some (h, rest) =>
      let '(hs, tl) := scan fuel' r rest (is_nil (hit_text h)) in
      (h :: hs, tl)
    end
  end.

Definition finditer (r : regex) (s : pystr) : list hit * pystr :=
  scan (2 * length s + 2) r s false.

(** [re.sub(r, repl, s)] for a replacement text without escapes. *)
Definition re_sub (r : regex) (repl : pystr) (s : pystr) : pystr :=
  let '(hs, tl) := finditer r s in
  concat ((λ h, hit_pre h ++ repl) <$> hs) ++ tl.

(** ** clean_filename *)

Definition good_character : pystr :=
  let g0 := py "ABCDEFGHIJKLMNOPQRSTUVWXYZ" in
  let g1 := g0 ++ py "ÀÈÌÒÙÁÉÍÓÚÝÂÊÎÔÛÄËÏÖÜŸÃÑÕÅÆŒÇÐØ" in
  let g2 := g1 ++ lower g1 in
  g2 ++ py "1234567890-_.ß".

Definition clean_filename (file_str : pystr) : pystr :=
  let file_str := re_sub (Plus Space) (py "_") file_str in
  filter (λ lett, lett ∈ good_character) file_str.


(** The sanitizer as the specification words it: every maximal run of
    whitespace becomes one underscore ([in_run] tells that the previous
    character was whitespace), then the characters outside the allowed set
    are dropped. *)
Fixpoint collapse_ws (in_run : bool) (s : pystr) : pystr :=
  match s with
  | [] => []
  | c :: t =>
    if is_space c
    then (if in_run then [] else py "_") ++ collapse_ws true t
    else c :: collapse_ws false t
  end.

Definition accented_upper : pystr := py "ÀÈÌÒÙÁÉÍÓÚÝÂÊÎÔÛÄËÏÖÜŸÃÑÕÅÆŒÇÐØ".
Definition accented_lower : pystr := py "àèìòùáéíóúýâêîôûäëïöüÿãñõåæœçðø".

Definition allowed_set (c : char) : bool :=
  ((65 <=? c) && (c <=? 90)) || ((97 <=? c) && (c <=? 122))
  || bool_decide (c ∈ accented_upper) || bool_decide (c ∈ accented_lower)
  || ((48 <=? c) && (c <=? 57))
  || bool_decide (c ∈ py "-_.ß").

Definition sanitize_spec (s : pystr) : pystr :=
  List.filter allowed_set (collapse_ws false s).

Fixpoint skip_ws (s : pystr) : pystr :=
  match s with
  | c :: t => if is_space c then skip_ws t else s
  | [] => []
  end.

(** [re_sub] with the fuel of its loop exposed. *)
Definition sub_out (fuel : nat) (r : regex) (repl s : pystr) : pystr :=
  let '(hs, tl) := scan fuel r s false in
  concat ((λ h, hit_pre h ++ repl) <$> hs) ++ tl.

(** ** Values, exceptions and results *)

(** The Python values that flow through the URL handling: [None], a
    [str], a [bytes] object, or the tuple [findall] yields for a pattern
    with several groups. *)
Inductive pyval : Type :=
| VNone
| VStr (s : pystr)
| VBytes (b : bytes)
| VTuple (l : list pystr).

Inductive exn : Type :=
| AttributeError
| IndexError
| KeyError
| TypeError
| ValueError
| SyntaxError
| UnicodeDecodeError
| OSError
| ParseError
| RequestException
| MutagenError.

Inductive result (A : Type) : Type :=
| Ok (a : A)
| Raise (e : exn).
Arguments Ok {A} a.
Arguments Raise {A} e.

#[global] Instance result_ret : MRet result := λ A a, Ok a.
#[global] Instance result_bind : MBind result := λ A B f m,
  match m with Ok a => f a | Raise e => Raise e end.

(** [o] is the result of a lookup that returns [None] when nothing is
    found; using [None] as an object raises [e]. *)
Definition require {A : Type} (e : exn) (o : option A) : result A :=
  match o with Some a => Ok a | None => Raise e end.

(** [str(x)] inside an f-string, for a value that may be [None]. *)
Definition fmt (o : option pystr) : pystr := default (py "None") o.

Definition of_opt (o : option pystr) : pyval :=
  match o with Some s => VStr s | None => VNone end.

(** [str(n)] for a non-negative integer. *)
Fixpoint digits (fuel : nat) (n : N) (acc : pystr) : pystr :=
  match fuel with
  | O => acc
  | S fuel' =>
    let acc' := (48 + n mod 10) :: acc in
    if n <? 10 then acc' else digits fuel' (n / 10) acc'
  end.

Definition str_N (n : N) : pystr := digits (S (N.to_nat (N.log2 n))) n [].

Definition zfill (width : nat) (s : pystr) : pystr :=
  replicate (width - length s) 48 ++ s.

(** ** findall, as the script uses it *)

Definition group (h : hit) (i : nat) : pystr := default [] (hit_caps h !! i).

Definition hit_item (r : regex) (h : hit) : pyval :=
  match ngroups r with
  | 0%nat => VStr (hit_text h)
  | 1%nat => VStr (group h 1)
  | n => VTuple (group h <$> seq 1 n)
  end.

Definition findall (r : regex) (s : pystr) : list pyval :=
  hit_item r <$> (finditer r s).1.

(** ** Dates *)

Record datetime : Type := {
  year : N; month : N; day : N;
  hour : N; minute : N; second : N;
  utcoffset : Z;                 (* microseconds east of UTC *)
}.

Definition is_leap (y : N) : bool :=
  (y mod 4 =? 0) && (negb (y mod 100 =? 0) || (y mod 400 =? 0)).

Definition days_before_year (y : N) : N :=
  let y := y - 1 in y * 365 + y / 4 - y / 100 + y / 400.

Definition days_before_month (y m : N) : N :=
  nth (N.to_nat m) [0; 0; 31; 59; 90; 120; 151; 181; 212; 243; 273; 304; 334] 0
  + (if (2 <? m) && is_leap y then 1 else 0).

Definition toordinal (d : datetime) : N :=
  days_before_year (year d) + days_before_month (year d) (month d) + day d.

(** The instant an aware [datetime] denotes, in microseconds; aware
    values are compared by it. *)
Definition instant (d : datetime) : Z :=
  (Z.of_N (((toordinal d * 24 + hour d) * 60 + minute d) * 60 + second d)
   * 1000000 - utcoffset d)%Z.

(** [datetime.strftime(d, '%Y-%m-%d')], for years of four digits. *)
Definition out_date (date_object : datetime) : pystr :=
  zfill 4 (str_N (year date_object)) ++ py "-"
  ++ zfill 2 (str_N (month date_object)) ++ py "-"
  ++ zfill 2 (str_N (day date_object)).

(** ** The feed document, as [ElementTree] presents it *)

Record enclosure : Type := {
  enc_url : option pystr;        (* get('url') *)
  enc_type : option pystr;       (* get('type') *)
}.

Record episode : Type := {
  ep_title : option pystr;             (* findtext('title') *)
  ep_description : option pystr;       (* findtext('description') *)
  ep_pubDate : option (option pystr);  (* find('pubDate'), then its text *)
  ep_enclosure : option enclosure;     (* find('enclosure') *)
  (* the descendants named image, in document order: namespace URI and
     href attribute *)
  ep_images : list (pystr * option pystr);
}.

Record feed : Type := {
  channel_title : option pystr;        (* findtext('./channel/title') *)
  channel_copyright : option pystr;    (* findtext('./channel/copyright') *)
  (* the text of find('./channel/image/url'); None: no such element *)
  channel_image_url : option pystr;
  (* the descendants named author: namespace URI and text *)
  feed_authors : list (pystr * pystr);
  feed_items : list episode;           (* findall('./channel/item') *)
}.

(** [find('.//itunes:<tag>', namespaces)] on a list of candidates: the
    prefix must be in the map, else the path is refused. *)
Definition find_itunes {A : Type} (namespaces : gmap pystr pystr)
    (candidates : list (pystr * A)) : result (option A) :=
  uri ← require SyntaxError (namespaces !! py "itunes");
  Ok (snd <$> List.find (λ c, bool_decide (c.1 = uri)) candidates).

(** ** Configuration *)

Record podcast : Type := {
  name : pystr;
  rssFeedUrl : pystr;
  episodeUrlFilter : option regex;     (* [None]: the key is absent *)
  artUrlFilter : option regex;
}.

(** [outPath] is the value the script has after its start-up code has
    expanded it and appended the separator. *)
Record config : Type := {
  outPath : pystr;
  dryRun : bool;
  namespaceRegex : regex;
  podList : list podcast;
}.

Record podcast_tags : Type := {
  album : option pystr;
  art : bytes;
  artMime : pystr;
  artist : option pystr;
  album_artist : option pystr;
  copyright : option pystr;
}.

Record podcast_config : Type := {
  pc_podcast : podcast;
  outDir : pystr;
  episodes : list episode;
  namespaces : gmap pystr pystr;
  pc_tags : podcast_tags;
}.

(** What [process_podcast] hands to mutagen. *)
Record tagset : Type := {
  TRCK : pystr; TIT2 : option pystr; TALB : option pystr;
  TCOP : option pystr; TPE1 : option pystr; TPE2 : option pystr;
  TCON : pystr; TDRC : pystr;
  APIC_data : bytes; APIC_mime : pystr;
}.

(** ** The world *)

Record response : Type := {
  content : bytes;
  content_type : option pystr;         (* headers['Content-Type'] *)
}.

Inductive event : Type :=
| EvGet (url : pystr) (timeout : N)    (* requests.get *)
| EvMkdir (path : pystr)               (* os.makedirs *)
| EvWrite (path : pystr) (data : bytes)
| EvSleep                              (* time.sleep(0.1) *)
| EvPrint (msg : pystr).

#[global] Instance event_eq_dec : EqDecision event.
Proof. solve_decision. Defined.

Record world : Type := World {
  files : gmap pystr bytes;
  dirs : gset pystr;
  trace : list event;                  (* oldest first *)
}.

Definition M (A : Type) : Type := world → result A * world.

#[global] Instance M_ret : MRet M := λ A a w, (Ok a, w).
#[global] Instance M_bind : MBind M := λ A B f m w,
  match m w with
  | (Ok a, w') => f a w'
  | (Raise e, w') => (Raise e, w')
  end.

Definition lift {A : Type} (r : result A) : M A := λ w, (r, w).

Definition emit (e : event) : M unit := λ w,
  (Ok (), World (files w) (dirs w) (trace w ++ [e])).

Definition print (msg : pystr) : M unit := emit (EvPrint msg).

(** [os.path.exists] *)
Definition path_exists (p : pystr) : M bool := λ w,
  (Ok (bool_decide (p ∈ dom (files w)) || bool_decide (p ∈ dirs w)), w).

(** [os.path.isdir] *)
Definition isdir (p : pystr) : M bool := λ w, (Ok (bool_decide (p ∈ dirs w)), w).

(** [os.makedirs(p, exist_ok=True)], called when [p] is not a directory:
    a file of that name is in the way. *)
Definition makedirs (p : pystr) : M unit := λ w,
  if bool_decide (p ∈ dom (files w)) then (Raise OSError, w)
  else (Ok (), World (files w) ({[p]} ∪ dirs w) (trace w ++ [EvMkdir p])).

(** [with open(p, 'wb') as f: f.write(data)]: a directory of that name is
    in the way; the parent directory is taken to exist. *)
Definition write_file (p : pystr) (data : bytes) : M unit := λ w,
  if bool_decide (p ∈ dirs w) then (Raise OSError, w)
  else (Ok (), World (<[p := data]> (files w)) (dirs w)
                     (trace w ++ [EvWrite p data])).

(** [with open(p, encoding='utf-8') as f: f.read()] *)
Definition read_text (p : pystr) : M pystr := λ w,
  match files w !! p with
  | Some b => (require UnicodeDecodeError (decode b), w)
  | None => (Raise OSError, w)
  end.

Definition read_bytes (p : pystr) : M bytes := λ w,
  (require OSError (files w !! p), w).

(** [enumerate(l, start)] *)
Fixpoint enumerate {A : Type} (start : nat) (l : list A) : list (nat * A) :=
  match l with
  | [] => []
  | x :: t => (start, x) :: enumerate (S start) t
  end.

(** A [for] loop whose body may raise. *)
Fixpoint for_each {A : Type} (l : list A) (body : A → M unit) : M unit :=
  match l with
  | [] => mret ()
  | x :: t => body x;; for_each t body
  end.

(** ** Sorting

    [sorted(l, key=f)] is a stable sort on keys computed once per
    element; a stable sort has one possible outcome
    ([stable_sort_unique] below), produced here by insertion. *)
Section Sorted.
Context {A : Type} (key : A → Z).

Fixpoint insert_by (x : A) (l : list A) : list A :=
  match l with
  | [] => [x]
  | y :: t =>
    if (key x <=? key y)%Z then x :: y :: t else y :: insert_by x t
  end.

Fixpoint sorted_by (l : list A) : list A :=
  match l with
  | [] => []
  | x :: t => insert_by x (sorted_by t)
  end.
End Sorted.

(** [result] version of map, stopping at the first exception. *)
Fixpoint map_result {A B : Type} (f : A → result B) (l : list A) : result (list B) :=
  match l with
  | [] => Ok []
  | x :: t => y ← f x; ys ← map_result f t; Ok (y :: ys)
  end.

(** ** The script *)

Section Program.
(** The libraries and the network, as the script sees them:
    [datetime.strptime] with the script's format,
    [mimetypes.guess_extension], the answer of [requests.get] for a URL
    ([None]: the request raises), [ET.fromstring] ([None]: the document
    is refused) and mutagen's tagging of a file content. *)
Context (strptime : pystr → option datetime)
        (guess_extension : pystr → option pystr)
        (http : pystr → option response)
        (fromstring : pyval → option feed)
        (mutagen : bytes → tagset → result bytes)
        (cfg : config).

Definition extract_date (episode_obj : episode) : result datetime :=
  el ← require AttributeError (ep_pubDate episode_obj);
  date_str ← require TypeError el;
  require ValueError (strptime date_str).

Definition requests_get (url : pyval) (timeout : N) : M response :=
  match url with
  | VStr u => emit (EvGet u timeout);; lift (require RequestException (http u))
  | _ => lift (Raise RequestException)
  end.

(** [x[0], x[1]] on an element of [findall]'s list. *)
Definition ns_entry (x : pyval) : result (pystr * pystr) :=
  match x with
  | VTuple (a :: b :: _) => Ok (a, b)
  | VStr (a :: b :: _) => Ok ([a], [b])
  | _ => Raise IndexError
  end.

Definition get_rss (xml_location : pystr) : M (pyval * gmap pystr pystr) :=
  xml ← (if bool_decide (take 4 xml_location = py "http")
         then r ← requests_get (VStr xml_location) 120;
              mret (VBytes (content r))
         else t ← read_text xml_location; mret (VStr t));
  text ← lift (match xml with
               | VBytes b => require UnicodeDecodeError (decode b)
               | _ => Raise AttributeError
               end);
  entries ← lift (map_result ns_entry (findall (namespaceRegex cfg) text));
  mret (xml, foldl (λ ns x, <[x.1 := x.2]> ns) ∅ entries).

Definition date_sort (episode_list : list episode) : result (list episode) :=
  keyed ← map_result (λ e, d ← extract_date e; Ok (d, e)) episode_list;
  Ok (snd <$> sorted_by (λ x, instant x.1) keyed).

(** The [try]/[except KeyError] around [re.compile(...)] and
    [findall(...)[0]], which the script has once for the media URL and
    once for the artwork URL. *)
Definition url_filter (filter : option regex) (raw : pyval) : result pyval :=
  match filter with
  | None => Ok raw
  | Some match_string =>
    match raw with
    | VStr s =>
      match findall match_string s with
      | x :: _ => Ok x
      | [] => Raise IndexError
      end
    | _ => Raise TypeError
    end
  end.

(** The entries [process_podcast] stores in [tags] before it prints. *)
Record episode_tags : Type := {
  t_title : option pystr;
  t_date : datetime;
  t_rawURL : option pystr;
  t_extension : option pystr;
}.

Definition read_tags (episode : episode) : result episode_tags :=
  date ← extract_date episode;
  enc ← require AttributeError (ep_enclosure episode);
  type ← require AttributeError (enc_type enc);
  Ok {| t_title := ep_title episode; t_date := date;
        t_rawURL := enc_url enc; t_extension := guess_extension type |}.

Definition build_filename (episode_number : nat) (t : episode_tags) : pystr :=
  clean_filename (out_date (t_date t) ++ py "_ep"
                  ++ str_N (N.of_nat episode_number) ++ py "_"
                  ++ fmt (t_title t) ++ fmt (t_extension t)).

(** [full_path], when the tags can be read. *)
Definition full_path (episode_number : nat) (episode : episode)
    (pc : podcast_config) : result pystr :=
  t ← read_tags episode;
  Ok (outDir pc ++ build_filename episode_number t).

(** [tags] is one dictionary shared by the episodes of a source; every
    entry an episode reads is one [main] set or one the same call has just
    written, so the entries are passed along as values.  The extension
    guessed for the artwork is stored and never read. *)
Definition process_podcast (episode_number : nat) (episode : episode)
    (pc : podcast_config) : M unit :=
  let tags := pc_tags pc in
  t ← lift (read_tags episode);
  print (py "Working on " ++ fmt (t_title t));;
  let filename := build_filename episode_number t in
  let full_path := outDir pc ++ filename in
  processed_url ← lift (url_filter (episodeUrlFilter (pc_podcast pc))
                                   (of_opt (t_rawURL t)));
  present ← path_exists full_path;
  if negb present && negb (dryRun cfg) then
    found ← lift (find_itunes (namespaces pc) (ep_images episode));
    episode_art_url ← match found with
                      | Some href => mret href
                      | None => print (py "No Episode Art Found!");; mret None
                      end;
    '(episode_art, episode_art_mime) ←
      match episode_art_url with
      | Some (c :: u) =>
        processed_art_url ← lift (url_filter (artUrlFilter (pc_podcast pc))
                                             (VStr (c :: u)));
        eart ← requests_get processed_art_url 30;
        mime ← lift (require KeyError (content_type eart));
        mret (content eart, mime)
      | _ => mret (art tags, artMime tags)
      end;
    print (py "Downloading " ++ filename);;
    html ← requests_get processed_url 30;
    print (py "Saving " ++ filename);;
    write_file full_path (content html);;
    data ← read_bytes full_path;
    tagged ← lift (mutagen data
      {| TRCK := str_N (N.of_nat episode_number); TIT2 := t_title t;
         TALB := album tags; TCOP := copyright tags; TPE1 := artist tags;
         TPE2 := album_artist tags; TCON := py "Podcast";
         TDRC := str_N (year (t_date t));
         APIC_data := episode_art; APIC_mime := episode_art_mime |});
    write_file full_path tagged
  else if dryRun cfg then
    print (py "Executing dry run, sleeping 0.1 second.");;
    emit EvSleep
  else
    print (py "Episode already downloaded. Skipping...");;
    print ([9] ++ py "    Track: " ++ str_N (N.of_nat episode_number));;
    print ([9] ++ py "File name: " ++ filename).

(** The loop at the end of [main]. *)
Definition process_episodes (pc : podcast_config) : M unit :=
  for_each (enumerate 1 (episodes pc))
           (λ ie, process_podcast ie.1 ie.2 pc).

(** The body of the loop over [config['podList']]. *)
Definition process_source (i : nat) (podcast : podcast) : M unit :=
  print (py "Starting podcast " ++ str_N (N.of_nat (i + 1)) ++ py ", "
         ++ [34] ++ name podcast ++ [34]);;
  let out_dir := outPath cfg ++ name podcast ++ py "/" in
  d ← isdir out_dir;
  (if negb d then makedirs out_dir else mret ());;
  '(rss_xml, ns) ← get_rss (rssFeedUrl podcast);
  root ← lift (require ParseError (fromstring rss_xml));
  url ← lift (require AttributeError (channel_image_url root));
  r ← requests_get (VStr url) 10;
  sorted ← lift (date_sort (feed_items root));
  art_mime ← lift (require KeyError (content_type r));
  author ← lift (find_itunes ns (feed_authors root));
  let tags := {| album := channel_title root; art := content r;
                 artMime := art_mime; artist := author;
                 album_artist := channel_title root;
                 copyright := channel_copyright root |} in
  let ext := guess_extension art_mime in
  let out_path := out_dir ++ py "cover" ++ fmt ext in
  write_file out_path (art tags);;
  process_episodes {| pc_podcast := podcast; outDir := out_dir;
                      episodes := sorted; namespaces := ns;
                      pc_tags := tags |}.

Definition main : M unit :=
  for_each (enumerate 0 (podList cfg)) (λ ip, process_source ip.1 ip.2).
End Program.

(** ** A concrete feed and network

    A small instance of the libraries and of the network, on which the
    script can be run: one feed of three episodes, listed out of
    chronological order. *)
Module Demo.
Definition date (y m d h : N) : datetime :=
  {| year := y; month := m; day := d; hour := h; minute := 0; second := 0;
     utcoffset := 0 |}.

Definition strptime (s : pystr) : option datetime :=
  if bool_decide (s = py "Tue, 10 Jan 2023 08:00:00 +0000")
  then Some (date 2023 1 10 8)
  else if bool_decide (s = py "Wed, 01 Mar 2023 08:00:00 +0000")
  then Some (date 2023 3 1 8)
  else if bool_decide (s = py "Wed, 15 Feb 2023 08:00:00 +0000")
  then Some (date 2023 2 15 8)
  else None.

(** An excerpt of the table of [mimetypes]. *)
Definition guess_extension (type : pystr) : option pystr :=
  if bool_decide (type = py "audio/mpeg") then Some (py ".mp3")
  else if bool_decide (type = py "image/jpeg") then Some (py ".jpg")
  else if bool_decide (type = py "image/png") then Some (py ".png")
  else None.

Definition itunes_uri : pystr := py "http://www.itunes.com/dtds/podcast-1.0.dtd".

Definition item (title date url type : string) : episode :=
  {| ep_title := Some (py title); ep_description := None;
     ep_pubDate := Some (Some (py date));
     ep_enclosure := Some {| enc_url := Some (py url);
                             enc_type := Some (py type) |};
     ep_images := [] |}.

Definition ep_jan : episode :=
  item "One" "Tue, 10 Jan 2023 08:00:00 +0000"
       "http://cdn.example/one.mp3?src=feed" "audio/mpeg".
Definition ep_mar : episode :=
  item "Three" "Wed, 01 Mar 2023 08:00:00 +0000"
       "http://cdn.example/three.mp3" "audio/mpeg".
Definition ep_feb : episode :=
  item "Two" "Wed, 15 Feb 2023 08:00:00 +0000"
       "http://cdn.example/two.mp3" "audio/mpeg".

Definition the_feed : feed :=
  {| channel_title := Some (py "Show"); channel_copyright := None;
     channel_image_url := Some (py "http://cdn.example/show.jpg");
     feed_authors := [(itunes_uri, py "Host")];
     feed_items := [ep_jan; ep_mar; ep_feb] |}.

Definition feed_text : bytes :=
  "<rss xmlns:itunes='http://www.itunes.com/dtds/podcast-1.0.dtd'/>".

Definition fromstring (doc : pyval) : option feed :=
  match doc with
  | VBytes b => if bool_decide (b = feed_text) then Some the_feed else None
  | _ => None
  end.

Definition http (url : pystr) : option response :=
  if bool_decide (url = py "http://feeds.example/show.xml")
  then Some {| content := feed_text; content_type := Some (py "text/xml") |}
  else if bool_decide (url = py "http://cdn.example/show.jpg")
  then Some {| content := "JPEG"; content_type := Some (py "image/jpeg") |}
  else if bool_decide (url = py "http://cdn.example/one.mp3?src=feed")
  then Some {| content := "one"; content_type := Some (py "audio/mpeg") |}
  else if bool_decide (url = py "http://cdn.example/two.mp3")
  then Some {| content := "two"; content_type := Some (py "audio/mpeg") |}
  else if bool_decide (url = py "http://cdn.example/three.mp3")
  then Some {| content := "three"; content_type := Some (py "audio/mpeg") |}
  else None.

Definition mutagen (data : bytes) (tags : tagset) : result bytes :=
  Ok ("ID3" ++ data)%string.

(** A pattern for [xmlns:prefix='uri'] declarations: group 1 is a run of
    lower-case letters, group 2 the text up to the closing quote. *)
Definition namespace_regex : regex :=
  Seq (lits (py "xmlns:"))
 (Seq (Group (Plus (OneOf (py "abcdefghijklmnopqrstuvwxyz"))))
 (Seq (lits (py "='"))
 (Seq (Group (Star (NoneOf (py "'")))) (Lit 39)))).

Definition show : podcast :=
  {| name := py "Show"; rssFeedUrl := py "http://feeds.example/show.xml";
     episodeUrlFilter := None; artUrlFilter := None |}.

Definition config_of (dry : bool) (pods : list podcast) : config :=
  {| outPath := py "/pod/"; dryRun := dry;
     namespaceRegex := namespace_regex; podList := pods |}.

Definition empty_world : world := World ∅ ∅ [].

Definition run (cfg : config) : M unit :=
  main strptime guess_extension http fromstring mutagen cfg.
End Demo.

(** ** Further inputs for the examples *)

(** The instant [date_sort] orders an episode by. *)
Definition pub_instant (strptime : pystr → option datetime) (e : episode) : Z :=
  match extract_date strptime e with
  | Ok d => instant d
  | Raise _ => 0%Z
  end.

(** A filter that keeps what precedes the query string: one group of any
    characters, then a question mark. *)
Definition before_query : regex := Seq (Group (Star Dot)) (Lit 63).

Definition ep_unknown_type : episode :=
  Demo.item "One" "Tue, 10 Jan 2023 08:00:00 +0000"
            "http://cdn.example/one.bin" "application/x-unknown".

Definition demo_pc (eps : list episode) : podcast_config :=
  {| pc_podcast := Demo.show; outDir := py "/pod/Show/"; episodes := eps;
     namespaces := {[ py "itunes" := Demo.itunes_uri ]};
     pc_tags := {| album := Some (py "Show"); art := "JPEG";
                   artMime := py "image/jpeg"; artist := Some (py "Host");
                   album_artist := Some (py "Show"); copyright := None |} |}.

Definition world_with_feed : world :=
  World {[ py "feed.xml" := Demo.feed_text ]} ∅ [].

(** ** Vocabulary for the statements *)

Definition is_print (e : event) : Prop :=
  match e with EvPrint _ => True | _ => False end.

(** No file and no directory is added or removed. *)
Definition same_paths (w w' : world) : Prop :=
  dom (files w') = dom (files w) ∧ dirs w' = dirs w.

(** Every path of [w] is still a path of [w']. *)
Definition extends (w w' : world) : Prop :=
  dom (files w) ⊆ dom (files w') ∧ dirs w ⊆ dirs w'.

(** No path is both a file and a directory. *)
Definition wf (w : world) : Prop := dom (files w) ## dirs w.

Definition present (p : pystr) (w : world) : Prop :=
  p ∈ dom (files w) ∨ p ∈ dirs w.

(** What a dry run leaves in the trace for one episode. *)
Definition dry_events (ep : episode) : list event :=
  [EvPrint (py "Working on " ++ fmt (ep_title ep));
   EvPrint (py "Executing dry run, sleeping 0.1 second.");
   EvSleep].

(** What a source leaves in the trace when all its episodes are skipped:
    the start message, the fetch of the feed, the fetch of the channel
    artwork, the write of the cover, and messages. *)
Definition source_skipped (cfg : config) (p : podcast) (evs : list event)
    : Prop :=
  ∃ start art_url ext data msgs,
    evs = [EvPrint start; EvGet (rssFeedUrl p) 120; EvGet art_url 10;
           EvWrite (outPath cfg ++ name p ++ py "/" ++ py "cover" ++ ext) data]
          ++ msgs
    ∧ Forall is_print msgs.

(** The paths written by a sequence of events. *)
Definition written (evs : list event) : list pystr :=
  omap (λ e, match e with EvWrite p _ => Some p | _ => None end) evs.

(** The world after more events. *)
Definition log (evs : list event) (w : world) : world :=
  World (files w) (dirs w) (trace w ++ evs).

(** What a skipped episode leaves in the trace. *)
Definition skip_events (episode_number : nat) (t : episode_tags) : list event :=
  [EvPrint (py "Working on " ++ fmt (t_title t));
   EvPrint (py "Episode already downloaded. Skipping...");
   EvPrint ([9] ++ py "    Track: " ++ str_N (N.of_nat episode_number));
   EvPrint ([9] ++ py "File name: " ++ build_filename episode_number t)].

(** Well-formedness is not lost. *)
Definition keeps_wf (w w' : world) : Prop := wf w → wf w'.

(** A computation whose final world is always related to its initial one. *)
Definition keeps (R : relation world) {A : Type} (m : M A) : Prop :=
  ∀ w, R w (m w).2.

Definition ep_gone : episode :=
  Demo.item "Gone" "Wed, 15 Feb 2023 08:00:00 +0000"
            "http://cdn.example/gone.mp3" "audio/mpeg".

Definition demo_episodes (dry : bool) (pc : podcast_config) : M unit :=
  process_episodes Demo.strptime Demo.guess_extension Demo.http Demo.mutagen
                   (Demo.config_of dry [Demo.show]) pc.

(** The demonstration source with [before_query] configured as the filter
    of its media URLs. *)
Definition filtered_pc (eps : list episode) : podcast_config :=
  {| pc_podcast := {| name := py "Show";
                      rssFeedUrl := py "http://feeds.example/show.xml";
                      episodeUrlFilter := Some before_query;
                      artUrlFilter := None |};
     outDir := py "/pod/Show/"; episodes := eps;
     namespaces := namespaces (demo_pc eps);
     pc_tags := pc_tags (demo_pc eps) |}.

(** A file system in which the episode of February is already there, as
    the first of its source. *)
Definition world_with_two : world :=
  World {[ py "/pod/Show/2023-02-15_ep1_Two.mp3" := ("ID3two" : bytes) ]}
        {[ py "/pod/Show/" ]} [].

(** ** Vocabulary for the further properties *)

Definition is_digit (c : char) : bool := (48 <=? c) && (c <=? 57).

(** The number a run of decimal digits denotes. *)
Definition N_of_digits (s : pystr) : N := foldl (λ a c, a * 10 + (c - 48)) 0 s.

(** Whether a text that follows [a] continues a run of whitespace. *)
Definition run_after (in_run : bool) (a : pystr) : bool :=
  match last a with Some c => is_space c | None => in_run end.

(** A source whose feed location is a file name. *)
Definition local_show : podcast :=
  {| name := py "Local"; rssFeedUrl := py "feed.xml";
     episodeUrlFilter := None; artUrlFilter := None |}.

(** Directories are unchanged, and so is every file whose path is not in
    [P]. *)
Definition touches_only (P : pystr → Prop) (w w' : world) : Prop :=
  dirs w' = dirs w ∧ ∀ q, ¬ P q → files w' !! q = files w !! q.

(** The tags [process_podcast] sets on the downloaded file. *)
Definition tagset_of (episode_number : nat) (t : episode_tags)
    (tags : podcast_tags) (art_data : bytes) (art_mime : pystr) : tagset :=
  {| TRCK := str_N (N.of_nat episode_number); TIT2 := t_title t;
     TALB := album tags; TCOP := copyright tags; TPE1 := artist tags;
     TPE2 := album_artist tags; TCON := py "Podcast";
     TDRC := str_N (year (t_date t));
     APIC_data := art_data; APIC_mime := art_mime |}.

(** The lines that end the set-up of the configuration: a separator is
    appended to the expanded [outPath] unless [outPath[:-1]] is ['/']. *)
Definition startup_outPath (expanded : pystr) : pystr :=
  if bool_decide (take (length expanded - 1) expanded = py "/")
  then expanded
  else expanded ++ py "/".

(** What [find('.//itunes:image')] and [get('href')] give when the episode
    has no artwork of its own: no element, no attribute, or an empty one. *)
Definition no_art_reference (found : option (option pystr)) : Prop :=
  found = None ∨ found = Some None ∨ found = Some (Some []).

(** The outcome of [process_podcast] from the message [Downloading] on,
    for an episode whose path [p] is absent: [w] is the world at the
    call, [w1] the world when the artwork has been settled. *)
Definition download_outcome (http : pystr → option response)
    (mutagen : bytes → tagset → result bytes)
    (filename p u : pystr) (ts : tagset) (w w1 : world)
    : result unit * world :=
  match http u with
  | None =>
    (Raise RequestException,
     log [EvPrint (py "Downloading " ++ filename); EvGet u 30] w1)
  | Some html =>
    match mutagen (content html) ts with
    | Raise e =>
      (Raise e,
       World (<[p := content html]> (files w)) (dirs w)
             (trace w1 ++ [EvPrint (py "Downloading " ++ filename);
                           EvGet u 30;
                           EvPrint (py "Saving " ++ filename);
                           EvWrite p (content html)]))
    | Ok tagged =>
      (Ok (),
       World (<[p := tagged]> (files w)) (dirs w)
             (trace w1 ++ [EvPrint (py "Downloading " ++ filename);
                           EvGet u 30;
                           EvPrint (py "Saving " ++ filename);
                           EvWrite p (content html);
                           EvWrite p tagged]))
    end
  end.

(** An episode with artwork of its own, and a network that serves it. *)
Definition ep_with_art : episode :=
  {| ep_title := Some (py "One"); ep_description := None;
     ep_pubDate := Some (Some (py "Tue, 10 Jan 2023 08:00:00 +0000"));
     ep_enclosure := Some {| enc_url := Some (py "http://cdn.example/one.mp3?src=feed");
                             enc_type := Some (py "audio/mpeg") |};
     ep_images := [(Demo.itunes_uri, Some (py "http://cdn.example/one.png"))] |}.

Definition http_with_art (url : pystr) : option response :=
  if bool_decide (url = py "http://cdn.example/one.png")
  then Some {| content := "PNG"; content_type := Some (py "image/png") |}
  else Demo.http url.

(** A tagger that refuses every file. *)
Definition mutagen_refuses (data : bytes) (tags : tagset) : result bytes :=
  Raise MutagenError.

(** Files and directories are unchanged and the trace has only grown. *)
Definition only_logs (w w' : world) : Prop :=
  dirs w' = dirs w ∧ files w' = files w ∧ ∃ evs, trace w' = trace w ++ evs.

(** A batch whose second source has a file name for its feed. *)
Definition batch_with_local : config :=
  Demo.config_of false [Demo.show; local_show; Demo.show].

(** * Properties *)

(** ** The whitespace pattern *)

Lemma skip_ws_length s : (length (skip_ws s) ≤ length s)%nat.
Proof. induction s as [|c t IH]; simpl; [lia|]. destruct (is_space c); simpl; lia. Qed.

Lemma collapse_ws_in_run s : collapse_ws true s = collapse_ws false (skip_ws s).
Proof.
  induction s as [|c t IH]; simpl; [done|].
  destruct (is_space c) eqn:E; simpl; [done|]. by rewrite E.
Qed.

Lemma star_space_greedy {R} base (k : @kont R) n s caps :
  (∀ s' caps', k s' caps' ≠ None) →
  (length s ≤ n)%nat →
  star_loop (rmatch Space base) k n s caps = k (skip_ws s) caps.
Proof.
  intros Hk. revert s. induction n as [|n IH]; intros s Hn.
  - destruct s; simpl in *; [done|lia].
  - destruct s as [|c t]; simpl.
    { by destruct (k [] caps). }
    destruct (is_space c) eqn:E; [|done].
    assert ((length t <? S (length t))%nat = true) as ->
      by (apply Nat.ltb_lt; lia).
    rewrite IH by (simpl in Hn; lia).
    destruct (k (skip_ws t) caps) eqn:Ek; [done|]. by apply Hk in Ek.
Qed.

Lemma match_at_ws_plus s :
  match_at (Plus Space) s false
  = match s with
    | c :: t => if is_space c then Some (skip_ws t, ∅) else None
    | [] => None
    end.
Proof.
  unfold match_at. destruct s as [|c t]; simpl; [done|].
  destruct (is_space c); [|done].
  by apply (star_space_greedy 0%nat (λ s' caps', Some (s', caps'))).
Qed.

Lemma sub_out_ws_nil fuel repl : sub_out fuel (Plus Space) repl [] = [].
Proof. destruct fuel; done. Qed.

Lemma sub_out_ws_keep fuel repl c t :
  is_space c = false →
  sub_out (S fuel) (Plus Space) repl (c :: t)
  = c :: sub_out (S fuel) (Plus Space) repl t.
Proof.
  intros E. unfold sub_out. cbn [scan search].
  rewrite match_at_ws_plus, E.
  destruct (search (Plus Space) t false) as [[h rest]|]; [|done].
  cbn [hit_text]. by destruct (scan fuel _ rest _) as [hs tl].
Qed.

Lemma sub_out_ws_run fuel repl c t :
  is_space c = true →
  sub_out (S fuel) (Plus Space) repl (c :: t)
  = repl ++ sub_out fuel (Plus Space) repl (skip_ws t).
Proof.
  intros E. unfold sub_out. cbn [scan search].
  rewrite match_at_ws_plus, E. cbn [hit_text].
  pose proof (skip_ws_length t).
  replace (length (c :: t) - length (skip_ws t))%nat
    with (S (length t - length (skip_ws t))) by (simpl; lia).
  cbn [take is_nil].
  destruct (scan fuel _ (skip_ws t) false) as [hs tl]; cbn.
  by rewrite <- app_assoc.
Qed.

Lemma sub_out_ws fuel s :
  (length s < fuel)%nat →
  sub_out fuel (Plus Space) (py "_") s = collapse_ws false s.
Proof.
  revert s. induction fuel as [|fuel IH]; [intros; lia|].
  intros s. induction s as [|c t IHt]; intros Hl.
  - by rewrite sub_out_ws_nil.
  - cbn [collapse_ws]. destruct (is_space c) eqn:E.
    + rewrite sub_out_ws_run by done.
      rewrite collapse_ws_in_run, IH; [done|].
      pose proof (skip_ws_length t). simpl in Hl. lia.
    + rewrite sub_out_ws_keep by done. rewrite IHt; [done|simpl in Hl; lia].
Qed.

(** [re.sub(r"\s+", '_', s)] collapses the runs of whitespace of [s]. *)
Lemma re_sub_ws s : re_sub (Plus Space) (py "_") s = collapse_ws false s.
Proof. apply (sub_out_ws (2 * length s + 2) s). lia. Qed.

(** ** The allowed set *)

Lemma below_by_cases (P : N → Prop) `{!∀ c, Decision (P c)} (n : nat) :
  bool_decide (Forall P (N.of_nat <$> seq 0 n)) = true →
  ∀ c, c < N.of_nat n → P c.
Proof.
  intros Hall c Hc. apply bool_decide_eq_true in Hall.
  rewrite Forall_forall in Hall. apply Hall.
  apply list_elem_of_fmap. exists (N.to_nat c). split; [lia|].
  apply elem_of_seq. lia.
Qed.

Lemma good_character_small c : c ∈ good_character → c < 400.
Proof.
  revert c. apply Forall_forall.
  apply (bool_decide_unpack _). by vm_compute.
Qed.

Lemma allowed_set_small c : allowed_set c = true → c < 400.
Proof.
  unfold allowed_set. intros H.
  repeat (apply orb_prop in H as [H|H]).
  - apply andb_prop in H as [_ H]. apply N.leb_le in H. lia.
  - apply andb_prop in H as [_ H]. apply N.leb_le in H. lia.
  - apply bool_decide_eq_true in H. revert c H. apply Forall_forall.
    apply (bool_decide_unpack _). by vm_compute.
  - apply bool_decide_eq_true in H. revert c H. apply Forall_forall.
    apply (bool_decide_unpack _). by vm_compute.
  - apply andb_prop in H as [_ H]. apply N.leb_le in H. lia.
  - apply bool_decide_eq_true in H. revert c H. apply Forall_forall.
    apply (bool_decide_unpack _). by vm_compute.
Qed.

(** Membership in the script's constant is membership in the set the
    specification lists. *)
Lemma good_character_allowed c : c ∈ good_character ↔ allowed_set c = true.
Proof.
  destruct (decide (c < 400)) as [Hc|Hc].
  - revert c Hc.
    apply (below_by_cases (λ c, c ∈ good_character ↔ allowed_set c = true) 400).
    by vm_compute.
  - split; intros H; [apply good_character_small in H|apply allowed_set_small in H]; lia.
Qed.

Lemma allowed_not_space c : allowed_set c = true → is_space c = false.
Proof.
  intros H. pose proof (allowed_set_small c H) as Hc. revert c Hc H.
  apply (below_by_cases (λ c, allowed_set c = true → is_space c = false) 400).
  by vm_compute.
Qed.

(** ** clean_filename *)

Lemma clean_filename_collapse s :
  clean_filename s = filter (λ c, c ∈ good_character) (collapse_ws false s).
Proof. unfold clean_filename. by rewrite re_sub_ws. Qed.

Lemma clean_filename_good s : Forall (λ c, c ∈ good_character) (clean_filename s).
Proof.
  rewrite clean_filename_collapse. apply Forall_forall. intros c Hc.
  by apply list_elem_of_filter in Hc as [? _].
Qed.

Lemma collapse_ws_no_space s :
  Forall (λ c, is_space c = false) s → collapse_ws false s = s.
Proof.
  induction 1 as [|c t Hc _ IH]; simpl; [done|]. by rewrite Hc, IH.
Qed.

Lemma filter_spec_agree (l : pystr) :
  filter (λ c, c ∈ good_character) l = List.filter allowed_set l.
Proof.
  induction l as [|c t IH]; [done|].
  rewrite filter_cons. simpl. rewrite IH.
  destruct (decide (c ∈ good_character)) as [H|H].
  - apply good_character_allowed in H. by rewrite H.
  - destruct (allowed_set c) eqn:E; [|done].
    by apply good_character_allowed in E.
Qed.

Lemma filter_all_good (l : pystr) :
  Forall (λ c, c ∈ good_character) l → filter (λ c, c ∈ good_character) l = l.
Proof.
  induction 1 as [|c t Hc _ IH]; [done|].
  rewrite filter_cons. destruct (decide (c ∈ good_character)); [|done].
  by rewrite IH.
Qed.

(** C6: on every input, [clean_filename] is the two-step algorithm of the
    specification (each run of whitespace becomes one underscore, then the
    characters outside the allowed set are dropped; nothing is substituted
    and nothing raises), so its output has only characters of the allowed
    set and no whitespace. *)
Theorem clean_filename_sanitizes (s : pystr) :
  clean_filename s = sanitize_spec s
  ∧ Forall (λ c, allowed_set c = true) (clean_filename s)
  ∧ Forall (λ c, is_space c = false) (clean_filename s).
Proof.
  assert (Forall (λ c, allowed_set c = true) (clean_filename s)) as Hall.
  { eapply Forall_impl; [apply clean_filename_good|].
    intros c. apply good_character_allowed. }
  split_and!; [|done|].
  - unfold sanitize_spec. rewrite clean_filename_collapse.
    apply filter_spec_agree.
  - eapply Forall_impl; [exact Hall|]. apply allowed_not_space.
Qed.

(** C7 as stated fails: on ["Ep. 5: The Rëturn!"] the result is not
    ["Ep_5_The_Rëturn"]. *)
Lemma clean_filename_example_not_as_stated :
  clean_filename (py "Ep. 5: The Rëturn!") ≠ py "Ep_5_The_Rëturn".
Proof. by vm_compute. Qed.

(** C7, amended: on ["Ep. 5: The Rëturn!"] the result is
    ["Ep._5_The_Rëturn"]: [':'] and ['!'] are dropped and ['.'], which is in
    the allowed set, is kept; the extension is part of the text that is
    sanitized, so its ['.'] is kept in the same way. *)
Theorem clean_filename_example :
  clean_filename (py "Ep. 5: The Rëturn!") = py "Ep._5_The_Rëturn"
  ∧ build_filename 5
      {| t_title := Some (py "Ep. 5: The Rëturn!");
         t_date := Demo.date 2023 1 10 8;
         t_rawURL := None; t_extension := Some (py ".mp3") |}
    = py "2023-01-10_ep5_Ep._5_The_Rëturn.mp3".
Proof. split; by vm_compute. Qed.

(** C10: [clean_filename] is idempotent. *)
Theorem clean_filename_idempotent (s : pystr) :
  clean_filename (clean_filename s) = clean_filename s.
Proof.
  pose proof (clean_filename_good s) as Hgood.
  rewrite (clean_filename_collapse (clean_filename s)).
  rewrite collapse_ws_no_space; [by apply filter_all_good|].
  eapply Forall_impl; [exact Hgood|].
  intros c Hc. by apply allowed_not_space, good_character_allowed.
Qed.

(** ** Sorting and numbering *)

Section SortedFacts.
Context {A : Type} (key : A → Z).

Lemma insert_by_perm x l : insert_by key x l ≡ₚ x :: l.
Proof.
  induction l as [|y t IH]; simpl; [done|].
  destruct (key x <=? key y)%Z; [done|].
  rewrite IH. apply Permutation_swap.
Qed.

Lemma sorted_by_perm l : sorted_by key l ≡ₚ l.
Proof.
  induction l as [|x t IH]; simpl; [done|].
  by rewrite insert_by_perm, IH.
Qed.

Lemma insert_by_sorted x l :
  StronglySorted (λ a b, key a ≤ key b)%Z l →
  StronglySorted (λ a b, key a ≤ key b)%Z (insert_by key x l).
Proof.
  induction 1 as [|y t Ht IH Hy]; simpl.
  - repeat constructor.
  - destruct (key x <=? key y)%Z eqn:E.
    + apply Z.leb_le in E. constructor; [by constructor|].
      constructor; [done|].
      eapply Forall_impl; [exact Hy|]. simpl. intros; lia.
    + apply Z.leb_gt in E. constructor; [done|].
      rewrite insert_by_perm. constructor; [lia|done].
Qed.

Lemma sorted_by_sorted l :
  StronglySorted (λ a b, key a ≤ key b)%Z (sorted_by key l).
Proof.
  induction l as [|x t IH]; simpl; [constructor|by apply insert_by_sorted].
Qed.

(** Stability: the elements of one key keep their order. *)
Lemma insert_by_stable k x l :
  filter (λ a, key a = k) (insert_by key x l)
  = filter (λ a, key a = k) (x :: l).
Proof.
  induction l as [|y t IH]; simpl; [done|].
  destruct (key x <=? key y)%Z eqn:E; [done|].
  apply Z.leb_gt in E.
  rewrite (filter_cons _ y), IH, !filter_cons.
  repeat case_decide; (done || lia).
Qed.

Lemma sorted_by_stable k l :
  filter (λ a, key a = k) (sorted_by key l) = filter (λ a, key a = k) l.
Proof.
  induction l as [|x t IH]; simpl; [done|].
  by rewrite insert_by_stable, !filter_cons, IH.
Qed.

Lemma sorted_lookup_le (l : list A) i j a b :
  StronglySorted (λ a b, key a ≤ key b)%Z l →
  l !! i = Some a → l !! j = Some b → (i < j)%nat → (key a ≤ key b)%Z.
Proof.
  intros Hs. revert i j. induction Hs as [|y t Ht IH Hy]; intros i j Hi Hj Hij.
  - done.
  - destruct j as [|j]; [lia|]. simpl in Hj.
    destruct i as [|i]; simpl in Hi.
    + injection Hi as ->. rewrite Forall_forall in Hy.
      apply Hy. by eapply list_elem_of_lookup_2.
    + apply (IH i j); [done..|lia].
Qed.

Lemma sorted_lookup_lt (l : list A) i j a b :
  StronglySorted (λ a b, key a ≤ key b)%Z l → NoDup (key <$> l) →
  l !! i = Some a → l !! j = Some b → (i < j)%nat → (key a < key b)%Z.
Proof.
  intros Hs Hnd Hi Hj Hij.
  pose proof (sorted_lookup_le l i j a b Hs Hi Hj Hij) as Hle.
  destruct (decide (key a = key b)) as [Heq|]; [|lia].
  assert (i = j); [|lia].
  apply (NoDup_lookup (key <$> l) i j (key a)); [done|..].
  - by rewrite list_lookup_fmap, Hi.
  - by rewrite list_lookup_fmap, Hj, Heq.
Qed.
(** Two sorted lists that hold, for every key, the same elements in the
    same order are equal: the outcome of a stable sort is determined. *)
Lemma stable_sort_unique (l1 l2 : list A) :
  StronglySorted (λ a b, key a ≤ key b)%Z l1 →
  StronglySorted (λ a b, key a ≤ key b)%Z l2 →
  (∀ k, filter (λ a, key a = k) l1 = filter (λ a, key a = k) l2) →
  l1 = l2.
Proof.
  intros Hs1. revert l2.
  induction Hs1 as [|x t1 Ht1 IH Hx]; intros l2 Hs2 Hsame.
  - destruct l2 as [|y t2]; [done|].
    specialize (Hsame (key y)). rewrite filter_cons_True in Hsame by done.
    by rewrite filter_nil in Hsame.
  - destruct Hs2 as [|y t2 Ht2 Hy].
    { specialize (Hsame (key x)). rewrite filter_cons_True in Hsame by done.
      by rewrite filter_nil in Hsame. }
    assert (key x = key y) as Hk.
    { apply Z.le_antisymm.
      - assert (y ∈ x :: t1) as Hin.
        { eapply (list_elem_of_filter (λ a, key a = key y)).
          rewrite Hsame, filter_cons_True by done. left. }
        apply elem_of_cons in Hin as [->|Hin]; [done|].
        rewrite Forall_forall in Hx. by apply Hx.
      - assert (x ∈ y :: t2) as Hin.
        { eapply (list_elem_of_filter (λ a, key a = key x)).
          rewrite <- Hsame, filter_cons_True by done. left. }
        apply elem_of_cons in Hin as [->|Hin]; [done|].
        rewrite Forall_forall in Hy. by apply Hy. }
    pose proof (Hsame (key x)) as Hhead.
    rewrite filter_cons_True in Hhead by done.
    rewrite filter_cons_True in Hhead by done.
    injection Hhead as -> Htail. f_equal. apply IH; [done|].
    intros k. destruct (decide (key y = k)) as [<-|Hne]; [done|].
    specialize (Hsame k). by rewrite !filter_cons_False in Hsame by done.
Qed.
End SortedFacts.

Lemma insert_by_fmap {A B : Type} (f : A → B) (kA : A → Z) (kB : B → Z) x l :
  kB (f x) = kA x → Forall (λ y, kB (f y) = kA y) l →
  insert_by kB (f x) (f <$> l) = f <$> insert_by kA x l.
Proof.
  intros Hx. induction 1 as [|y t Hy _ IH]; csimpl; [done|].
  rewrite Hx, Hy. destruct (kA x <=? kA y)%Z; [done|].
  csimpl. by rewrite IH.
Qed.

Lemma sorted_by_fmap {A B : Type} (f : A → B) (kA : A → Z) (kB : B → Z) l :
  Forall (λ y, kB (f y) = kA y) l →
  sorted_by kB (f <$> l) = f <$> sorted_by kA l.
Proof.
  induction 1 as [|x t Hx Ht IH]; csimpl; [done|].
  rewrite IH. apply insert_by_fmap; [done|].
  eapply Forall_forall. intros y Hy. rewrite sorted_by_perm in Hy.
  by eapply Forall_forall in Ht.
Qed.

Lemma enumerate_fst {A : Type} start (l : list A) :
  (enumerate start l).*1 = seq start (length l).
Proof.
  revert start. induction l as [|x t IH]; intros start; simpl; [done|].
  by rewrite IH.
Qed.

Lemma enumerate_snd {A : Type} start (l : list A) : (enumerate start l).*2 = l.
Proof.
  revert start. induction l as [|x t IH]; intros start; simpl; [done|].
  by rewrite IH.
Qed.

Lemma elem_of_enumerate {A : Type} start (l : list A) i x :
  (i, x) ∈ enumerate start l ↔ (start ≤ i)%nat ∧ l !! (i - start)%nat = Some x.
Proof.
  revert start. induction l as [|y t IH]; intros start; simpl.
  - split; [by intros ?%elem_of_nil|by intros [_ ?]].
  - rewrite elem_of_cons, IH. split.
    + intros [Heq|[Hle Hl]]; [simplify_eq|].
      * split; [lia|]. by rewrite Nat.sub_diag.
      * split; [lia|]. by replace (i - start)%nat with (S (i - S start)) by lia.
    + intros [Hle Hl]. destruct (decide (i = start)) as [->|Hne].
      * left. rewrite Nat.sub_diag in Hl. simpl in Hl. congruence.
      * right. split; [lia|].
        by replace (i - start)%nat with (S (i - S start)) in Hl by lia.
Qed.

Lemma date_sort_keyed strptime (l : list episode) :
  Forall (λ e, ∃ d, extract_date strptime e = Ok d) l →
  ∃ keyed,
    map_result (λ e, d ← extract_date strptime e; Ok (d, e)) l = Ok keyed
    ∧ keyed.*2 = l
    ∧ Forall (λ x, instant x.1 = pub_instant strptime x.2) keyed.
Proof.
  induction 1 as [|e t [d Hd] _ (keyed & Hk & Hsnd & Hall)].
  - by exists [].
  - exists ((d, e) :: keyed). simpl. rewrite Hd, Hk. simpl.
    split_and!; [done|by rewrite <- Hsnd|].
    constructor; [|done]. unfold pub_instant. cbn [fst snd]. by rewrite Hd.
Qed.

Lemma date_sort_ok strptime (l : list episode) :
  Forall (λ e, ∃ d, extract_date strptime e = Ok d) l →
  date_sort strptime l = Ok (sorted_by (pub_instant strptime) l).
Proof.
  intros Hl. destruct (date_sort_keyed strptime l Hl) as (keyed & Hk & Hsnd & Hall).
  unfold date_sort. rewrite Hk. simpl. f_equal.
  rewrite <- Hsnd. symmetry. apply sorted_by_fmap.
  eapply Forall_impl; [exact Hall|]. by intros [d e].
Qed.

Example date_sort_demo :
  date_sort Demo.strptime [Demo.ep_jan; Demo.ep_mar; Demo.ep_feb]
  = Ok [Demo.ep_jan; Demo.ep_feb; Demo.ep_mar].
Proof. by vm_compute. Qed.

(** C2: when every item has a publication date that parses, [date_sort]
    returns the items sorted ascending by the instant of that date, by a
    stable sort (items of equal instant keep their feed order), and the
    numbers [enumerate(..., start=1)] gives the result are 1..N in order;
    with distinct instants a smaller number means an earlier date and
    conversely. *)
Theorem date_sort_numbering strptime (l : list episode) :
  Forall (λ e, ∃ d, extract_date strptime e = Ok d) l →
  ∃ l', date_sort strptime l = Ok l'
    ∧ l' ≡ₚ l
    ∧ StronglySorted
        (λ a b, pub_instant strptime a ≤ pub_instant strptime b)%Z l'
    ∧ (∀ t, filter (λ e, pub_instant strptime e = t) l'
            = filter (λ e, pub_instant strptime e = t) l)
    ∧ (enumerate 1 l').*1 = seq 1 (length l)
    ∧ (enumerate 1 l').*2 = l'
    ∧ (NoDup (pub_instant strptime <$> l) →
       ∀ i j a b, (i, a) ∈ enumerate 1 l' → (j, b) ∈ enumerate 1 l' →
         (i < j)%nat ↔ (pub_instant strptime a < pub_instant strptime b)%Z).
Proof.
  intros Hl. exists (sorted_by (pub_instant strptime) l).
  pose proof (sorted_by_perm (pub_instant strptime) l) as Hperm.
  pose proof (sorted_by_sorted (pub_instant strptime) l) as Hsorted.
  split_and!.
  - by apply date_sort_ok.
  - done.
  - done.
  - intros t. apply sorted_by_stable.
  - by rewrite enumerate_fst, Hperm.
  - apply enumerate_snd.
  - intros Hnd i j a b [Hi Ha]%elem_of_enumerate [Hj Hb]%elem_of_enumerate.
    assert (NoDup (pub_instant strptime <$> sorted_by (pub_instant strptime) l))
      as Hnd' by by rewrite Hperm.
    split.
    + intros Hij.
      apply (sorted_lookup_lt _ _ (i - 1) (j - 1) a b Hsorted Hnd' Ha Hb). lia.
    + intros Hab. destruct (decide (i < j)%nat) as [|Hge]; [done|].
      destruct (decide (i = j)) as [->|Hne].
      * rewrite Ha in Hb. injection Hb as ->. lia.
      * pose proof (sorted_lookup_lt _ _ (j - 1) (i - 1) b a Hsorted Hnd' Hb Ha).
        lia.
Qed.

Lemma date_sort_numbering_witness :
  ∃ l', date_sort Demo.strptime [Demo.ep_jan; Demo.ep_mar; Demo.ep_feb] = Ok l'
    ∧ l' ≡ₚ [Demo.ep_jan; Demo.ep_mar; Demo.ep_feb]
    ∧ StronglySorted
        (λ a b, pub_instant Demo.strptime a ≤ pub_instant Demo.strptime b)%Z l'
    ∧ (∀ t, filter (λ e, pub_instant Demo.strptime e = t) l'
            = filter (λ e, pub_instant Demo.strptime e = t)
                     [Demo.ep_jan; Demo.ep_mar; Demo.ep_feb])
    ∧ (enumerate 1 l').*1 = seq 1 3
    ∧ (enumerate 1 l').*2 = l'
    ∧ (NoDup (pub_instant Demo.strptime
              <$> [Demo.ep_jan; Demo.ep_mar; Demo.ep_feb]) →
       ∀ i j a b, (i, a) ∈ enumerate 1 l' → (j, b) ∈ enumerate 1 l' →
         (i < j)%nat
         ↔ (pub_instant Demo.strptime a < pub_instant Demo.strptime b)%Z).
Proof.
  apply (date_sort_numbering Demo.strptime
           [Demo.ep_jan; Demo.ep_mar; Demo.ep_feb]).
  repeat constructor; eexists; vm_compute; reflexivity.
Defined.

(** ** URL filters *)

Lemma findall_search r s :
  findall r s
  = match search r s false with
    | Some (h, rest) =>
      hit_item r h
      :: (hit_item r <$> (scan (2 * length s + 1) r rest (is_nil (hit_text h))).1)
    | None => []
    end.
Proof.
  unfold findall, finditer.
  replace (2 * length s + 2)%nat with (S (2 * length s + 1)) by lia.
  cbn [scan]. destruct (search r s false) as [[h rest]|]; [|done].
  by destruct (scan _ r rest _).
Qed.

Example url_filter_match :
  url_filter (Some before_query) (VStr (py "http://cdn.example/one.mp3?src=feed"))
  = Ok (VStr (py "http://cdn.example/one.mp3")).
Proof. by vm_compute. Qed.

(** C3 as stated fails: a filter that does not match the raw URL does not
    resolve to the raw URL. *)
Lemma url_filter_no_match_not_raw :
  ¬ (∀ (r : regex) (raw : pystr),
       search r raw false = None →
       url_filter (Some r) (VStr raw) = Ok (VStr raw)).
Proof.
  intros H.
  specialize (H before_query (py "http://cdn.example/two.mp3")).
  by vm_compute in H; specialize (H eq_refl).
Qed.

(** C3, amended: with a configured filter the resolved URL is the first
    element of [findall], that is, for a pattern with one capturing group,
    the text of that group in the leftmost match; a configured filter that
    does not match raises [IndexError]; the raw URL is the result
    only when no filter is configured. *)
Theorem url_filter_contract (filter : option regex) (raw : pystr) :
  url_filter filter (VStr raw)
  = match filter with
    | None => Ok (VStr raw)
    | Some r =>
      match search r raw false with
      | Some (h, _) =>
        Ok (match ngroups r with
            | 0%nat => VStr (hit_text h)
            | 1%nat => VStr (group h 1)
            | n => VTuple (group h <$> seq 1 n)
            end)
      | None => Raise IndexError
      end
    end.
Proof.
  destruct filter as [r|]; [|done].
  unfold url_filter. rewrite findall_search.
  by destruct (search r raw false) as [[h rest]|].
Qed.

(** ** Path derivation *)

(** C8 as stated fails: for a MIME type without an extension the path
    derivation raises nothing and yields a path. *)
Lemma full_path_unknown_type_no_error :
  Demo.guess_extension (py "application/x-unknown") = None
  ∧ full_path Demo.strptime Demo.guess_extension 1 ep_unknown_type (demo_pc [])
    = Ok (py "/pod/Show/2023-01-10_ep1_OneNone")
  ∧ ¬ ∃ e, full_path Demo.strptime Demo.guess_extension 1 ep_unknown_type
             (demo_pc []) = Raise e.
Proof.
  split_and!; [by vm_compute..|].
  intros [e He]. by vm_compute in He.
Qed.

(** C8, amended: when the enclosure type has no extension,
    [guess_extension] answers [None], the derivation does not fail, and
    the destination path is built with the text [None] in the place of the
    extension. *)
Theorem full_path_unknown_type strptime guess_extension n ep pc d enc type :
  extract_date strptime ep = Ok d →
  ep_enclosure ep = Some enc →
  enc_type enc = Some type →
  guess_extension type = None →
  full_path strptime guess_extension n ep pc
  = Ok (outDir pc
        ++ clean_filename (out_date d ++ py "_ep" ++ str_N (N.of_nat n)
                           ++ py "_" ++ fmt (ep_title ep) ++ py "None")).
Proof.
  intros Hd Henc Htype Hguess.
  unfold full_path, read_tags. rewrite Hd, Henc. simpl. rewrite Htype. simpl.
  unfold build_filename. simpl. by rewrite Hguess.
Qed.

Lemma full_path_unknown_type_witness :
  full_path Demo.strptime Demo.guess_extension 1 ep_unknown_type (demo_pc [])
  = Ok (outDir (demo_pc [])
        ++ clean_filename (out_date (Demo.date 2023 1 10 8) ++ py "_ep"
                           ++ str_N (N.of_nat 1) ++ py "_"
                           ++ fmt (ep_title ep_unknown_type) ++ py "None")).
Proof.
  apply (full_path_unknown_type Demo.strptime Demo.guess_extension 1
           ep_unknown_type (demo_pc []) (Demo.date 2023 1 10 8)
           {| enc_url := Some (py "http://cdn.example/one.bin");
              enc_type := Some (py "application/x-unknown") |}
           (py "application/x-unknown"));
    vm_compute; reflexivity.
Defined.

(** ** get_rss *)

Example get_rss_http_demo :
  (get_rss Demo.http (Demo.config_of false []) (py "http://feeds.example/show.xml")
           Demo.empty_world).1
  = Ok (VBytes Demo.feed_text, {[ py "itunes" := Demo.itunes_uri ]}).
Proof. by vm_compute. Qed.

(** C9 fails on the code for local files: for a location that does not
    start with [http] and names an existing, well-encoded file, [get_rss]
    raises [AttributeError] (the text read from the file has no [decode])
    and returns nothing. *)
Theorem get_rss_local_file http cfg (xml_location : pystr) (w : world) b text :
  take 4 xml_location ≠ py "http" →
  files w !! xml_location = Some b →
  decode b = Some text →
  get_rss http cfg xml_location w = (Raise AttributeError, w).
Proof.
  intros Hloc Hfile Hdec. unfold get_rss.
  rewrite bool_decide_eq_false_2 by done.
  unfold mbind, M_bind, read_text. rewrite Hfile, Hdec. by simpl.
Qed.

Lemma get_rss_local_file_witness :
  get_rss Demo.http (Demo.config_of false []) (py "feed.xml") world_with_feed
  = (Raise AttributeError, world_with_feed).
Proof.
  apply (get_rss_local_file Demo.http (Demo.config_of false []) (py "feed.xml")
           world_with_feed Demo.feed_text
           (py "<rss xmlns:itunes='http://www.itunes.com/dtds/podcast-1.0.dtd'/>"));
    vm_compute; try reflexivity.
  intros H; discriminate H.
Defined.

(** ** The monad *)

Lemma bind_ok_inv {A B : Type} (m : M A) (f : A → M B) w b w' :
  (m ≫= f) w = (Ok b, w') → ∃ a w1, m w = (Ok a, w1) ∧ f a w1 = (Ok b, w').
Proof.
  unfold mbind, M_bind. destruct (m w) as [[a|e] w1]; [|done]. eauto.
Qed.

Lemma bind_ok {A B : Type} (m : M A) (f : A → M B) w a w1 :
  m w = (Ok a, w1) → (m ≫= f) w = f a w1.
Proof. unfold mbind, M_bind. by intros ->. Qed.

Lemma bind_raise {A B : Type} (m : M A) (f : A → M B) w e w1 :
  m w = (Raise e, w1) → (m ≫= f) w = (Raise e, w1).
Proof. unfold mbind, M_bind. by intros ->. Qed.

Lemma for_each_app {A : Type} (l1 l2 : list A) (body : A → M unit) w w1 :
  for_each l1 body w = (Ok (), w1) →
  for_each (l1 ++ l2) body w = for_each l2 body w1.
Proof.
  revert w. induction l1 as [|x t IH]; intros w H; simpl in *.
  - by injection H as ->.
  - apply bind_ok_inv in H as ([] & wm & Hx & Ht).
    rewrite (bind_ok _ _ _ _ _ Hx). by apply IH.
Qed.

Lemma enumerate_app {A : Type} start (l1 l2 : list A) :
  enumerate start (l1 ++ l2)
  = enumerate start l1 ++ enumerate (start + length l1) l2.
Proof.
  revert start. induction l1 as [|x t IH]; intros start; simpl.
  - by rewrite Nat.add_0_r.
  - rewrite IH. by replace (S start + length t)%nat with (start + S (length t))%nat by lia.
Qed.

(** ** Failure of an episode *)

(** C4 as stated fails: when the media fetch of the second of three
    episodes raises, the loop ends there; the trace stops at the failed
    fetch and the third episode is not started. *)
Lemma episode_failure_not_isolated :
  let res := demo_episodes false (demo_pc [Demo.ep_jan; ep_gone; Demo.ep_mar])
                           Demo.empty_world in
  res.1 = Raise RequestException
  ∧ drop 7 (trace res.2)
    = [EvPrint (py "Working on Gone"); EvPrint (py "No Episode Art Found!");
       EvPrint (py "Downloading 2023-02-15_ep2_Gone.mp3");
       EvGet (py "http://cdn.example/gone.mp3") 30]
  ∧ (EvPrint (py "Working on Three") ∉ trace res.2)
  ∧ dom (files res.2) = {[ (py "/pod/Show/2023-01-10_ep1_One.mp3") ]}.
Proof. split_and!; [by vm_compute..| |by vm_compute].
  apply (bool_decide_unpack _). by vm_compute.
Qed.

(** C4, amended: an exception raised while episode k of a source is
    processed ends the loop over that source's episodes with that
    exception; episodes 1..k-1 have been processed, the world is left as
    episode k left it, and episodes k+1..N are not attempted. *)
Theorem episode_failure_aborts strptime guess_extension http mutagen cfg
    (pc : podcast_config) (eps1 : list episode) (e : episode)
    (eps2 : list episode) (w w1 w2 : world) (x : exn) :
  episodes pc = eps1 ++ e :: eps2 →
  for_each (enumerate 1 eps1)
    (λ ie, process_podcast strptime guess_extension http mutagen cfg
                           ie.1 ie.2 pc) w = (Ok (), w1) →
  process_podcast strptime guess_extension http mutagen cfg
                  (S (length eps1)) e pc w1 = (Raise x, w2) →
  process_episodes strptime guess_extension http mutagen cfg pc w
  = (Raise x, w2).
Proof.
  intros Heps H1 He. unfold process_episodes.
  rewrite Heps, enumerate_app.
  rewrite (for_each_app _ _ _ _ _ H1). simpl.
  by apply bind_raise.
Qed.

Lemma episode_failure_aborts_witness :
  ∃ w2, demo_episodes false (demo_pc [Demo.ep_jan; ep_gone; Demo.ep_mar])
                      Demo.empty_world
        = (Raise RequestException, w2).
Proof.
  eexists.
  eapply (episode_failure_aborts Demo.strptime Demo.guess_extension Demo.http
            Demo.mutagen (Demo.config_of false [Demo.show])
            (demo_pc [Demo.ep_jan; ep_gone; Demo.ep_mar])
            [Demo.ep_jan] ep_gone [Demo.ep_mar] Demo.empty_world).
  - reflexivity.
  - vm_compute. reflexivity.
  - vm_compute. reflexivity.
Defined.

(** ** Relations every step preserves *)

Section Keeps.
Context (R : relation world) `{!PreOrder R}.

Lemma keeps_ret {A : Type} (a : A) : keeps R (mret a).
Proof. intros w. simpl. reflexivity. Qed.

Lemma keeps_lift {A : Type} (r : result A) : keeps R (lift r).
Proof. intros w. simpl. reflexivity. Qed.

Lemma keeps_bind {A B : Type} (m : M A) (f : A → M B) :
  keeps R m → (∀ a, keeps R (f a)) → keeps R (m ≫= f).
Proof.
  intros Hm Hf w. specialize (Hm w). unfold mbind, M_bind.
  destruct (m w) as [[a|e] w1]; simpl in *; [|done].
  etrans; [exact Hm|apply Hf].
Qed.

Lemma keeps_for_each {A : Type} (l : list A) (body : A → M unit) :
  (∀ x, keeps R (body x)) → keeps R (for_each l body).
Proof.
  intros Hb. induction l as [|x t IH]; simpl.
  - apply keeps_ret.
  - apply keeps_bind; [apply Hb|by intros _].
Qed.

Lemma keeps_run {A : Type} (m : M A) w r w' :
  keeps R m → m w = (r, w') → R w w'.
Proof. intros Hm Hrun. specialize (Hm w). by rewrite Hrun in Hm. Qed.

Lemma keeps_path_exists p : keeps R (path_exists p).
Proof. intros w. simpl. reflexivity. Qed.

Lemma keeps_isdir p : keeps R (isdir p).
Proof. intros w. simpl. reflexivity. Qed.

Lemma keeps_read_text p : keeps R (read_text p).
Proof. intros w. unfold read_text. destruct (files w !! p); simpl; reflexivity. Qed.

Lemma keeps_read_bytes p : keeps R (read_bytes p).
Proof. intros w. simpl. reflexivity. Qed.
End Keeps.

Ltac keeps_step prim :=
  first
    [ apply keeps_ret; solve [auto with typeclass_instances]
    | apply keeps_lift; solve [auto with typeclass_instances]
    | apply keeps_path_exists; solve [auto with typeclass_instances]
    | apply keeps_isdir; solve [auto with typeclass_instances]
    | apply keeps_read_text; solve [auto with typeclass_instances]
    | apply keeps_read_bytes; solve [auto with typeclass_instances]
    | prim
    | apply keeps_for_each; [solve [auto with typeclass_instances]|intros ?]
    | apply keeps_bind; [solve [auto with typeclass_instances]| |intros ?]
    | match goal with
      | |- keeps _ (match ?x with _ => _ end) => destruct x
      end ].

#[global] Instance extends_preorder : PreOrder extends.
Proof.
  split.
  - intros w. split; set_solver.
  - intros w1 w2 w3 [? ?] [? ?]. split; set_solver.
Qed.

#[global] Instance keeps_wf_preorder : PreOrder keeps_wf.
Proof.
  split; [by intros w Hw|].
  intros w1 w2 w3 H12 H23 Hw. by apply H23, H12.
Qed.

Lemma extends_emit e : keeps extends (emit e).
Proof. intros w. split; simpl; set_solver. Qed.

Lemma extends_makedirs p : keeps extends (makedirs p).
Proof.
  intros w. unfold makedirs. case_bool_decide; simpl; [reflexivity|].
  split; simpl; set_solver.
Qed.

Lemma extends_write_file p data : keeps extends (write_file p data).
Proof.
  intros w. unfold write_file. case_bool_decide; simpl; [reflexivity|].
  split; simpl; [|done]. rewrite dom_insert_L. set_solver.
Qed.

Lemma wf_emit e : keeps keeps_wf (emit e).
Proof. by intros w Hw. Qed.

Lemma wf_makedirs p : keeps keeps_wf (makedirs p).
Proof.
  intros w. unfold makedirs. case_bool_decide as Hfree; simpl; [reflexivity|].
  unfold keeps_wf, wf. simpl. intros Hw x Hfile Hdir.
  apply elem_of_union in Hdir as [Hx|Hdir]; [|by apply (Hw x)].
  apply elem_of_singleton in Hx as ->. by apply Hfree.
Qed.

Lemma wf_write_file p data : keeps keeps_wf (write_file p data).
Proof.
  intros w. unfold write_file. case_bool_decide as Hfree; simpl; [reflexivity|].
  unfold keeps_wf, wf. simpl. rewrite dom_insert_L. intros Hw x Hfile Hdir.
  apply elem_of_union in Hfile as [Hx|Hfile]; [|by apply (Hw x)].
  apply elem_of_singleton in Hx as ->. by apply Hfree.
Qed.

Ltac extends_prim :=
  first [apply extends_emit | apply extends_makedirs | apply extends_write_file].
Ltac wf_prim :=
  first [apply wf_emit | apply wf_makedirs | apply wf_write_file].

Section Invariants.
Context (strptime : pystr → option datetime)
        (guess_extension : pystr → option pystr)
        (http : pystr → option response)
        (fromstring : pyval → option feed)
        (mutagen : bytes → tagset → result bytes)
        (cfg : config).

Lemma extends_process_podcast n ep pc :
  keeps extends (process_podcast strptime guess_extension http mutagen cfg n ep pc).
Proof.
  unfold process_podcast, requests_get, print. cbv zeta.
  repeat keeps_step extends_prim.
Qed.

Lemma wf_process_podcast n ep pc :
  keeps keeps_wf (process_podcast strptime guess_extension http mutagen cfg n ep pc).
Proof.
  unfold process_podcast, requests_get, print. cbv zeta.
  repeat keeps_step wf_prim.
Qed.

Lemma extends_process_episodes pc :
  keeps extends (process_episodes strptime guess_extension http mutagen cfg pc).
Proof.
  apply keeps_for_each; [apply _|]. intros ie. apply extends_process_podcast.
Qed.

Lemma extends_process_source i p :
  keeps extends
    (process_source strptime guess_extension http fromstring mutagen cfg i p).
Proof.
  unfold process_source, process_episodes, get_rss, requests_get, print.
  cbv zeta.
  repeat first [apply extends_process_podcast | keeps_step extends_prim].
Qed.

Lemma wf_process_source i p :
  keeps keeps_wf
    (process_source strptime guess_extension http fromstring mutagen cfg i p).
Proof.
  unfold process_source, process_episodes, get_rss, requests_get, print.
  cbv zeta.
  repeat first [apply wf_process_podcast | keeps_step wf_prim].
Qed.
Lemma wf_main :
  keeps keeps_wf (main strptime guess_extension http fromstring mutagen cfg).
Proof.
  apply keeps_for_each; [apply _|]. intros ip. apply wf_process_source.
Qed.
End Invariants.

(** ** Dry run *)

Lemma read_tags_title strptime guess_extension ep t :
  read_tags strptime guess_extension ep = Ok t → t_title t = ep_title ep.
Proof.
  unfold read_tags. destruct (extract_date strptime ep); [|done]. simpl.
  destruct (ep_enclosure ep) as [enc|]; [|done]. simpl.
  destruct (enc_type enc); [|done]. simpl. by intros [= <-].
Qed.

Section DryRun.
Context (strptime : pystr → option datetime)
        (guess_extension : pystr → option pystr)
        (http : pystr → option response)
        (mutagen : bytes → tagset → result bytes)
        (cfg : config)
        (Hdry : dryRun cfg = true).

Lemma process_podcast_dry n ep pc w :
  process_podcast strptime guess_extension http mutagen cfg n ep pc w
  = match read_tags strptime guess_extension ep with
    | Raise e => (Raise e, w)
    | Ok t =>
      match url_filter (episodeUrlFilter (pc_podcast pc)) (of_opt (t_rawURL t)) with
      | Raise e => (Raise e, log [EvPrint (py "Working on " ++ fmt (ep_title ep))] w)
      | Ok _ => (Ok (), log (dry_events ep) w)
      end
    end.
Proof.
  unfold process_podcast, mbind, M_bind, lift, print, emit, path_exists.
  destruct (read_tags strptime guess_extension ep) as [t|e] eqn:Ht; [|done].
  rewrite (read_tags_title _ _ _ _ Ht).
  destruct (url_filter _ _) as [u|e]; [|done].
  rewrite Hdry, andb_false_r. unfold log, dry_events. simpl.
  by rewrite <- !app_assoc.
Qed.

Lemma dry_loop (pc : podcast_config) (l : list episode) start w :
  let res := for_each (enumerate start l)
               (λ ie, process_podcast strptime guess_extension http mutagen
                                      cfg ie.1 ie.2 pc) w in
  files res.2 = files w ∧ dirs res.2 = dirs w
  ∧ ∃ evs, trace res.2 = trace w ++ evs
      ∧ Forall (λ e, is_print e ∨ e = EvSleep) evs
      ∧ (res.1 = Ok () → evs = concat (dry_events <$> l))
      ∧ (Forall (λ ep, ∃ t u,
            read_tags strptime guess_extension ep = Ok t
            ∧ url_filter (episodeUrlFilter (pc_podcast pc)) (of_opt (t_rawURL t))
              = Ok u) l →
         res.1 = Ok ()).
Proof.
  revert start w. induction l as [|ep l IH]; intros start w; simpl.
  - split_and!; [done..|]. exists []. rewrite app_nil_r.
    by split_and!.
  - unfold mbind at 1 2 3 4 5, M_bind. rewrite process_podcast_dry.
    destruct (read_tags strptime guess_extension ep) as [t|e] eqn:Ht.
    2:{ simpl. split_and!; [done..|]. exists []. rewrite app_nil_r.
        split_and!; [done|by constructor|done|].
        intros Hall. inversion Hall as [|? ? (t' & u' & Ht' & _)]. congruence. }
    destruct (url_filter _ _) as [u|e] eqn:Hu.
    2:{ simpl. split_and!; [done..|]. eexists. split; [done|].
        split_and!; [repeat constructor; by left|done|].
        intros Hall. inversion Hall as [|? ? (t' & u' & Ht' & Hu')].
        congruence. }
    destruct (IH (S start) (log (dry_events ep) w))
      as (Hf & Hd & evs & Htr & Hq & Hok & Htot).
    split_and!; [done..|].
    exists (dry_events ep ++ evs). split_and!.
    + rewrite Htr. simpl. by rewrite <- app_assoc.
    + apply Forall_app. split; [|done].
      repeat constructor; (by left) || (by right).
    + intros Hres. by rewrite (Hok Hres).
    + intros Hall. apply Htot. by inversion Hall.
Qed.
End DryRun.

(** C5 as stated fails: in a dry run [main] still creates the directory of
    the source, fetches the feed and the channel artwork, and writes the
    cover file. *)
Lemma dry_run_main_not_quiet :
  let res := Demo.run (Demo.config_of true [Demo.show]) Demo.empty_world in
  res.1 = Ok ()
  ∧ files res.2 = {[ (py "/pod/Show/cover.jpg") := "JPEG"%string ]}
  ∧ dirs res.2 = {[ (py "/pod/Show/") ]}
  ∧ take 5 (trace res.2)
    = [EvPrint (py "Starting podcast 1, " ++ [34] ++ py "Show" ++ [34]);
       EvMkdir (py "/pod/Show/");
       EvGet (py "http://feeds.example/show.xml") 120;
       EvGet (py "http://cdn.example/show.jpg") 10;
       EvWrite (py "/pod/Show/cover.jpg") "JPEG"].
Proof. split_and!; by vm_compute. Qed.

(** C5, amended: in dry-run mode the loop over the episodes of a source
    fetches nothing and writes nothing: the files and directories are left
    as they were and only messages and pauses are added to the trace; when
    the loop completes, each episode has left, in iteration order, its
    message and one fixed pause, and it does complete when the tags of
    every episode can be read and its URL filter applies.  (The setup of
    the source in [main] is outside the dry-run test.) *)
Theorem dry_run_episodes strptime guess_extension http mutagen cfg
    (pc : podcast_config) (w : world) :
  dryRun cfg = true →
  let res := process_episodes strptime guess_extension http mutagen cfg pc w in
  files res.2 = files w ∧ dirs res.2 = dirs w
  ∧ ∃ evs, trace res.2 = trace w ++ evs
      ∧ Forall (λ e, is_print e ∨ e = EvSleep) evs
      ∧ (res.1 = Ok () → evs = concat (dry_events <$> episodes pc))
      ∧ (Forall (λ ep, ∃ t u,
            read_tags strptime guess_extension ep = Ok t
            ∧ url_filter (episodeUrlFilter (pc_podcast pc)) (of_opt (t_rawURL t))
              = Ok u) (episodes pc) →
         res.1 = Ok ()).
Proof. intros Hdry. by apply dry_loop. Qed.

Lemma dry_run_episodes_witness :
  let pc := demo_pc [Demo.ep_jan; Demo.ep_feb; Demo.ep_mar] in
  let res := demo_episodes true pc Demo.empty_world in
  files res.2 = ∅ ∧ dirs res.2 = ∅
  ∧ ∃ evs, trace res.2 = [] ++ evs
      ∧ Forall (λ e, is_print e ∨ e = EvSleep) evs
      ∧ (res.1 = Ok () → evs = concat (dry_events <$> episodes pc))
      ∧ (Forall (λ ep, ∃ t u,
            read_tags Demo.strptime Demo.guess_extension ep = Ok t
            ∧ url_filter (episodeUrlFilter (pc_podcast pc)) (of_opt (t_rawURL t))
              = Ok u) (episodes pc) →
         res.1 = Ok ()).
Proof.
  apply (dry_run_episodes Demo.strptime Demo.guess_extension Demo.http
           Demo.mutagen (Demo.config_of true [Demo.show])
           (demo_pc [Demo.ep_jan; Demo.ep_feb; Demo.ep_mar]) Demo.empty_world).
  reflexivity.
Defined.

(** ** A second run *)

Lemma log_log evs1 evs2 w : log evs2 (log evs1 w) = log (evs1 ++ evs2) w.
Proof. unfold log. simpl. by rewrite app_assoc. Qed.

Lemma print_ok_inv msg w x w1 :
  print msg w = (Ok x, w1) → w1 = log [EvPrint msg] w.
Proof. unfold print, emit, log. by intros [= <-]. Qed.

Lemma lift_ok_inv {A : Type} (r : result A) w a w1 :
  lift r w = (Ok a, w1) → r = Ok a ∧ w1 = w.
Proof. unfold lift. by intros [= -> ->]. Qed.

Lemma present_extends p w w' : present p w → extends w w' → present p w'.
Proof. intros [?|?] [? ?]; [left|right]; set_solver. Qed.

Lemma present_log p evs w : present p (log evs w) ↔ present p w.
Proof. done. Qed.

Lemma written_app evs1 evs2 : written (evs1 ++ evs2) = written evs1 ++ written evs2.
Proof. apply omap_app. Qed.

Lemma written_prints msgs : Forall is_print msgs → written msgs = [].
Proof.
  induction 1 as [|e msgs He _ IH]; [done|].
  by destruct e.
Qed.

Lemma elem_of_written p data evs : EvWrite p data ∈ evs → p ∈ written evs.
Proof.
  intros Hin. apply list_elem_of_omap. by exists (EvWrite p data).
Qed.

Ltac inv_bind H a w Ha := apply bind_ok_inv in H as (a & w & Ha & H).

Section SecondRun.
Context (strptime : pystr → option datetime)
        (guess_extension : pystr → option pystr)
        (http : pystr → option response)
        (fromstring : pyval → option feed)
        (mutagen : bytes → tagset → result bytes)
        (cfg : config)
        (Hwet : dryRun cfg = false).

Local Abbreviation process_podcast' :=
  (process_podcast strptime guess_extension http mutagen cfg).

Lemma process_podcast_skip n ep pc w t u :
  read_tags strptime guess_extension ep = Ok t →
  url_filter (episodeUrlFilter (pc_podcast pc)) (of_opt (t_rawURL t)) = Ok u →
  present (outDir pc ++ build_filename n t) w →
  process_podcast' n ep pc w = (Ok (), log (skip_events n t) w).
Proof.
  intros Ht Hu Hp.
  unfold process_podcast, mbind, M_bind, lift, print, emit, path_exists.
  rewrite Ht, Hu, Hwet. cbn [files dirs trace].
  assert (bool_decide (outDir pc ++ build_filename n t ∈ dom (files w))
          || bool_decide (outDir pc ++ build_filename n t ∈ dirs w) = true)
    as ->.
  { destruct Hp as [Hp|Hp]; rewrite (bool_decide_eq_true_2 _ Hp);
      [done|apply orb_true_r]. }
  cbn [negb andb]. unfold log, skip_events. cbn [files dirs trace].
  by rewrite <- !app_assoc.
Qed.

Lemma process_podcast_filter_raise n ep pc w t e :
  read_tags strptime guess_extension ep = Ok t →
  url_filter (episodeUrlFilter (pc_podcast pc)) (of_opt (t_rawURL t)) = Raise e →
  process_podcast' n ep pc w
  = (Raise e, log [EvPrint (py "Working on " ++ fmt (t_title t))] w).
Proof.
  intros Ht Hu.
  unfold process_podcast, mbind, M_bind, lift, print, emit.
  by rewrite Ht, Hu.
Qed.

Lemma process_podcast_ok_inv n ep pc w w1 :
  process_podcast' n ep pc w = (Ok (), w1) →
  ∃ t u,
    read_tags strptime guess_extension ep = Ok t
    ∧ url_filter (episodeUrlFilter (pc_podcast pc)) (of_opt (t_rawURL t)) = Ok u
    ∧ present (outDir pc ++ build_filename n t) w1.
Proof.
  intros H. unfold process_podcast in H. cbv zeta in H.
  inv_bind H t wt Ht. apply lift_ok_inv in Ht as [Ht ->].
  inv_bind H x0 w0 Hprint. clear Hprint x0.
  inv_bind H u wu Hu. apply lift_ok_inv in Hu as [Hu ->].
  inv_bind H b wb Hb. unfold path_exists in Hb. injection Hb as <- <-.
  exists t, u. split_and!; [done..|].
  rewrite Hwet in H.
  destruct (bool_decide (_ ∈ dom (files w0)) || bool_decide (_ ∈ dirs w0))
    eqn:Hpres; cbn [negb andb] in H.
  - assert (present (outDir pc ++ build_filename n t) w0) as Hp.
    { apply orb_prop in Hpres as [Hp|Hp]; apply bool_decide_eq_true in Hp;
        [by left|by right]. }
    unfold mbind, M_bind, print, emit in H. cbn [files dirs trace] in H.
    by injection H as <-.
  - repeat first
      [ apply bind_ok_inv in H as (? & ? & _ & H)
      | match type of H with
        | (match ?x with _ => _ end) _ = _ => destruct x
        end ].
    unfold write_file in H. case_bool_decide; [done|].
    injection H as <-. left. cbn [files]. rewrite dom_insert_L. set_solver.
Qed.

(** An episode whose destination path is present is only reported. *)
Lemma process_podcast_present n ep pc p w :
  full_path strptime guess_extension n ep pc = Ok p →
  present p w →
  ∃ msgs,
    (process_podcast' n ep pc w).2 = log msgs w ∧ Forall is_print msgs.
Proof.
  unfold full_path. intros Hpath Hp.
  destruct (read_tags strptime guess_extension ep) as [t|] eqn:Ht; [|done].
  simpl in Hpath. injection Hpath as <-.
  destruct (url_filter (episodeUrlFilter (pc_podcast pc)) (of_opt (t_rawURL t)))
    as [u|e] eqn:Hu.
  - rewrite (process_podcast_skip n ep pc w t u Ht Hu Hp).
    eexists. split; [done|]. by repeat constructor.
  - rewrite (process_podcast_filter_raise n ep pc w t e Ht Hu).
    eexists. split; [done|]. by repeat constructor.
Qed.

Lemma skip_loop (pc : podcast_config) (l : list episode) start w wa :
  for_each (enumerate start l) (λ ie, process_podcast' ie.1 ie.2 pc) w
  = (Ok (), wa) →
  ∀ w', extends wa w' →
  ∃ msgs,
    for_each (enumerate start l) (λ ie, process_podcast' ie.1 ie.2 pc) w'
    = (Ok (), log msgs w')
    ∧ Forall is_print msgs.
Proof.
  revert start w. induction l as [|ep l IH]; intros start w H w' Hext.
  - exists []. split; [|done]. cbn [enumerate for_each].
    unfold mret, M_ret, log. rewrite app_nil_r. by destruct w'.
  - cbn [enumerate for_each] in H. inv_bind H x0 w0 Ha. destruct x0.
    cbn [fst snd] in Ha.
    destruct (process_podcast_ok_inv _ _ _ _ _ Ha) as (t & u & Ht & Hu & Hp).
    assert (extends w0 wa) as Hext0.
    { eapply (keeps_run extends); [|exact H].
      apply keeps_for_each; [apply _|]. intros ie.
      apply extends_process_podcast. }
    assert (present (outDir pc ++ build_filename start t) w') as Hp'.
    { eapply present_extends; [exact Hp|]. by etrans. }
    destruct (IH (S start) w0 H (log (skip_events start t) w')) as (msgs & Hrun & Hmsgs).
    { done. }
    exists (skip_events start t ++ msgs). split.
    + cbn [enumerate for_each].
      erewrite bind_ok;
        [|cbn [fst snd]; by apply (process_podcast_skip _ _ _ _ t u)].
      by rewrite Hrun, log_log.
    + apply Forall_app. split; [|done]. by repeat constructor.
Qed.
Local Abbreviation process_source' :=
  (process_source strptime guess_extension http fromstring mutagen cfg).

Lemma requests_get_replay u timeout w r w1 :
  requests_get http (VStr u) timeout w = (Ok r, w1) →
  ∀ w', requests_get http (VStr u) timeout w' = (Ok r, log [EvGet u timeout] w').
Proof.
  unfold requests_get, mbind, M_bind, emit, lift.
  destruct (http u) as [r'|]; [|done]. cbn [require].
  by intros [= <- _] w'.
Qed.

Lemma get_rss_replay loc w v w1 :
  get_rss http cfg loc w = (Ok v, w1) →
  ∀ w', get_rss http cfg loc w' = (Ok v, log [EvGet loc 120] w').
Proof.
  unfold get_rss. case_bool_decide.
  - unfold requests_get, mbind, M_bind, emit, lift, mret, M_ret.
    destruct (http loc) as [r|]; [|done]. cbn [require content].
    destruct (decode (content r)) as [text|]; [|done]. cbn [require].
    destruct (map_result _ _) as [entries|]; [|done].
    by intros [= <- _] w'.
  - unfold read_text, mbind, M_bind, lift, mret, M_ret.
    destruct (files w !! loc) as [b|]; [|done].
    by destruct (require UnicodeDecodeError (decode b)).
Qed.

Lemma source_second_run i p w wa :
  process_source' i p w = (Ok (), wa) →
  ∀ w', wf w' → extends wa w' →
  ∃ evs w'',
    process_source' i p w' = (Ok (), w'')
    ∧ same_paths w' w''
    ∧ (∀ q, q ∉ written evs → files w'' !! q = files w' !! q)
    ∧ trace w'' = trace w' ++ evs
    ∧ source_skipped cfg p evs.
Proof.
  intros H w' Hwf Hext. unfold process_source in H. cbv zeta in H.
  inv_bind H x1 w1 Hprint. apply print_ok_inv in Hprint as ->.
  inv_bind H d w2 Hd. unfold isdir in Hd. injection Hd as <- <-.
  inv_bind H x3 w3 Hmk.
  inv_bind H x4 w4 Hrss. destruct x4 as [rss_xml ns].
  inv_bind H root w5 Hroot. apply lift_ok_inv in Hroot as [Hroot ->].
  inv_bind H url w6 Hurl. apply lift_ok_inv in Hurl as [Hurl ->].
  inv_bind H r w7 Hget.
  inv_bind H sorted w8 Hsort. apply lift_ok_inv in Hsort as [Hsort ->].
  inv_bind H art_mime w9 Hmime. apply lift_ok_inv in Hmime as [Hmime ->].
  inv_bind H author w10 Hauth. apply lift_ok_inv in Hauth as [Hauth ->].
  inv_bind H x11 w11 Hwr. destruct x3, x11.
  set (out_dir := outPath cfg ++ name p ++ py "/") in *.
  set (out_path := out_dir ++ py "cover" ++ fmt (guess_extension art_mime)) in *.
  (* what the first run established *)
  assert (out_dir ∈ dirs w3) as Hdir3.
  { cbn [dirs log] in Hmk.
    destruct (bool_decide (out_dir ∈ dirs w)) eqn:E; cbn [negb] in Hmk.
    - apply bool_decide_eq_true in E. by injection Hmk as <-.
    - unfold makedirs in Hmk. case_bool_decide; [done|].
      injection Hmk as <-. cbn [dirs]. set_solver. }
  pose proof (get_rss_replay _ _ _ _ Hrss w3) as Hrss3.
  rewrite Hrss in Hrss3. injection Hrss3 as ->.
  pose proof (requests_get_replay _ _ _ _ _ Hget (log [EvGet (rssFeedUrl p) 120] w3))
    as Hget3.
  rewrite Hget in Hget3. injection Hget3 as ->.
  unfold write_file in Hwr. case_bool_decide as Hnd; [done|].
  injection Hwr as <-.
  destruct (keeps_run extends _ _ _ _
              (extends_process_episodes strptime guess_extension http mutagen
                                        cfg _) H) as [Hf11 Hd11].
  cbn [files dirs log] in Hf11, Hd11. destruct Hext as [Hfa Hda].
  assert (out_dir ∈ dirs w') as Hdir' by set_solver.
  assert (out_path ∈ dom (files w')) as Hcover'.
  { apply Hfa, Hf11. rewrite dom_insert_L. set_solver. }
  assert (out_path ∉ dirs w') as Hcover_nd.
  { intros Hin. by apply (Hwf out_path). }
  (* the second run *)
  unfold process_episodes in H.
  edestruct (skip_loop _ _ _ _ _ H) as (msgs & Hloop & Hmsgs).
  2:{ exists ([EvPrint (py "Starting podcast " ++ str_N (N.of_nat (i + 1))
                         ++ py ", " ++ [34] ++ name p ++ [34]);
               EvGet (rssFeedUrl p) 120; EvGet url 10;
               EvWrite out_path (content r)] ++ msgs).
      eexists. split_and!.
      - unfold process_source. cbv zeta.
        erewrite bind_ok; [|reflexivity].
        erewrite bind_ok;
          [|unfold isdir; cbn [dirs]; rewrite bool_decide_eq_true_2 by exact Hdir';
            reflexivity].
        cbn [negb]. erewrite bind_ok; [|reflexivity].
        erewrite bind_ok; [|by apply (get_rss_replay _ _ _ _ Hrss)].
        cbv beta iota.
        erewrite bind_ok; [|unfold lift; rewrite Hroot; reflexivity].
        erewrite bind_ok; [|unfold lift; rewrite Hurl; reflexivity].
        erewrite bind_ok; [|by apply (requests_get_replay _ _ _ _ _ Hget)].
        erewrite bind_ok; [|unfold lift; rewrite Hsort; reflexivity].
        erewrite bind_ok; [|unfold lift; rewrite Hmime; reflexivity].
        erewrite bind_ok; [|unfold lift; rewrite Hauth; reflexivity].
        erewrite bind_ok;
          [|unfold write_file; cbn [dirs log];
            rewrite bool_decide_eq_false_2 by exact Hcover_nd; reflexivity].
        unfold process_episodes. exact Hloop.
      - split; cbn [files dirs log]; [|done].
        rewrite dom_insert_L. set_solver.
      - intros q Hq. cbn [files log]. apply lookup_insert_ne.
        intros <-. apply Hq. apply (elem_of_written _ (content r)).
        apply elem_of_app. left. do 3 apply list_elem_of_further.
        apply list_elem_of_here.
      - cbn [trace log]. subst out_path out_dir.
        rewrite <- !app_assoc. reflexivity.
      - exists (py "Starting podcast " ++ str_N (N.of_nat (i + 1))
                ++ py ", " ++ [34] ++ name p ++ [34]),
               url, (fmt (guess_extension art_mime)), (content r), msgs.
        split; [|done]. subst out_path out_dir.
        by rewrite <- !app_assoc. }
  split; cbn [files dirs log]; [|set_solver].
  rewrite dom_insert_L. set_solver.
Qed.

Lemma sources_second_run (pods : list podcast) start w wa :
  for_each (enumerate start pods) (λ ip, process_source' ip.1 ip.2) w
  = (Ok (), wa) →
  ∀ w', wf w' → extends wa w' →
  ∃ evss w'',
    for_each (enumerate start pods) (λ ip, process_source' ip.1 ip.2) w'
    = (Ok (), w'')
    ∧ same_paths w' w''
    ∧ (∀ q, q ∉ written (concat evss) → files w'' !! q = files w' !! q)
    ∧ trace w'' = trace w' ++ concat evss
    ∧ Forall2 (source_skipped cfg) pods evss.
Proof.
  revert start w. induction pods as [|p pods IH]; intros start w H w' Hwf Hext.
  - exists [], w'. cbn [enumerate for_each concat].
    rewrite app_nil_r. by split_and!.
  - cbn [enumerate for_each] in H. inv_bind H x0 wm Hsrc. destruct x0.
    cbn [fst snd] in Hsrc.
    assert (extends wm wa) as Hma.
    { eapply (keeps_run extends); [|exact H].
      apply keeps_for_each; [apply _|]. intros ip.
      apply extends_process_source. }
    destruct (source_second_run _ _ _ _ Hsrc w' Hwf) as
      (evs & w1' & Hrun & [Hsf Hsd] & Hfr & Htr & Hsk); [by etrans|].
    destruct (IH (S start) wm H w1')
      as (evss & w'' & Hrest & [Hsf' Hsd'] & Hfr' & Htr' & Hall).
    { unfold wf. rewrite Hsf, Hsd. exact Hwf. }
    { destruct Hext as [? ?]. split; [rewrite Hsf|rewrite Hsd]; done. }
    exists (evs :: evss), w''. split_and!.
    + cbn [enumerate for_each]. erewrite bind_ok; [|exact Hrun]. exact Hrest.
    + split; congruence.
    + intros q Hq. cbn [concat] in Hq. rewrite written_app in Hq.
      apply not_elem_of_app in Hq as [Hq1 Hq2].
      by rewrite Hfr', Hfr.
    + rewrite Htr', Htr. cbn [concat]. by rewrite app_assoc.
    + by constructor.
Qed.
End SecondRun.

(** C1 as stated fails: the download URL is resolved before the path is
    looked at, so an episode whose file is there, but whose configured
    filter does not match its URL, is not skipped: the call raises
    [IndexError] after its first message, and the loop over the episodes
    of the source ends there, the next episode not started. *)
Lemma present_episode_not_skipped :
  let pc := filtered_pc [Demo.ep_feb; Demo.ep_mar] in
  let path := py "/pod/Show/2023-02-15_ep1_Two.mp3" in
  full_path Demo.strptime Demo.guess_extension 1 Demo.ep_feb pc = Ok path
  ∧ present path world_with_two
  ∧ process_podcast Demo.strptime Demo.guess_extension Demo.http Demo.mutagen
                    (Demo.config_of false [Demo.show]) 1 Demo.ep_feb pc
                    world_with_two
    = (Raise IndexError, log [EvPrint (py "Working on Two")] world_with_two)
  ∧ demo_episodes false pc world_with_two
    = (Raise IndexError, log [EvPrint (py "Working on Two")] world_with_two).
Proof.
  split_and!; [by vm_compute| |by vm_compute..].
  left. apply (bool_decide_unpack _). by vm_compute.
Qed.

(** C1, amended: with dry-run off, an episode whose destination path is
    present is skipped provided its download URL resolves, that is, no
    filter is configured or the filter applies: the call returns normally,
    the files and directories are as they were, and the trace has grown
    by the four messages of a skipped episode, no fetch and no write.
    When the filter does not resolve the URL, the call raises the
    exception of the filter after its first message, again with no fetch
    and no write.  And when the pipeline has once completed from a
    well-formed file system, running it again on the world it left
    completes too, adds and removes no path, changes no file but the
    covers it writes again, and leaves in the trace, for each source in
    turn, only the start message, the fetch of the feed, the fetch of the
    channel artwork, the write of the cover, and messages: no episode is
    fetched or written, all are skipped. *)
Theorem second_run_skips strptime guess_extension http fromstring mutagen cfg :
  dryRun cfg = false →
  (∀ n ep pc p w,
     full_path strptime guess_extension n ep pc = Ok p →
     present p w →
     ∃ t,
       read_tags strptime guess_extension ep = Ok t
       ∧ p = outDir pc ++ build_filename n t
       ∧ process_podcast strptime guess_extension http mutagen cfg n ep pc w
         = match url_filter (episodeUrlFilter (pc_podcast pc))
                            (of_opt (t_rawURL t)) with
           | Ok _ => (Ok (), log (skip_events n t) w)
           | Raise e =>
             (Raise e, log [EvPrint (py "Working on " ++ fmt (t_title t))] w)
           end
       ∧ (episodeUrlFilter (pc_podcast pc) = None →
          process_podcast strptime guess_extension http mutagen cfg n ep pc w
          = (Ok (), log (skip_events n t) w)))
  ∧ (∀ w0 w1,
       wf w0 →
       main strptime guess_extension http fromstring mutagen cfg w0 = (Ok (), w1) →
       ∃ evss w2,
         main strptime guess_extension http fromstring mutagen cfg w1
         = (Ok (), w2)
         ∧ same_paths w1 w2
         ∧ (∀ q, q ∉ written (concat evss) → files w2 !! q = files w1 !! q)
         ∧ trace w2 = trace w1 ++ concat evss
         ∧ Forall2 (source_skipped cfg) (podList cfg) evss).
Proof.
  intros Hwet. split.
  - intros n ep pc p w Hpath Hp. unfold full_path in Hpath.
    destruct (read_tags strptime guess_extension ep) as [t|] eqn:Ht; [|done].
    cbn [mbind result_bind] in Hpath. injection Hpath as <-.
    exists t. split_and!; [done..| |].
    + destruct (url_filter (episodeUrlFilter (pc_podcast pc))
                           (of_opt (t_rawURL t))) as [u|e] eqn:Hu.
      * by eapply process_podcast_skip.
      * by eapply process_podcast_filter_raise.
    + intros Hnone. eapply process_podcast_skip; [done..| |done].
      by rewrite Hnone.
  - intros w0 w1 Hwf0 Hrun.
    apply (sources_second_run strptime guess_extension http fromstring mutagen
             cfg Hwet (podList cfg) 0 w0 w1 Hrun).
    + by apply (keeps_run keeps_wf _ _ _ _
                  (wf_main strptime guess_extension http fromstring mutagen cfg)
                  Hrun).
    + reflexivity.
Qed.

Lemma second_run_skips_witness :
  let cfg := Demo.config_of false [Demo.show] in
  let pc := demo_pc [Demo.ep_feb; Demo.ep_mar] in
  (∃ t,
     read_tags Demo.strptime Demo.guess_extension Demo.ep_feb = Ok t
     ∧ py "/pod/Show/2023-02-15_ep1_Two.mp3" = outDir pc ++ build_filename 1 t
     ∧ process_podcast Demo.strptime Demo.guess_extension Demo.http
                       Demo.mutagen cfg 1 Demo.ep_feb pc world_with_two
       = match url_filter (episodeUrlFilter (pc_podcast pc))
                          (of_opt (t_rawURL t)) with
         | Ok _ => (Ok (), log (skip_events 1 t) world_with_two)
         | Raise e =>
           (Raise e,
            log [EvPrint (py "Working on " ++ fmt (t_title t))] world_with_two)
         end
     ∧ (episodeUrlFilter (pc_podcast pc) = None →
        process_podcast Demo.strptime Demo.guess_extension Demo.http
                        Demo.mutagen cfg 1 Demo.ep_feb pc world_with_two
        = (Ok (), log (skip_events 1 t) world_with_two)))
  ∧ ∃ evss w2,
      Demo.run cfg (Demo.run cfg Demo.empty_world).2 = (Ok (), w2)
      ∧ same_paths (Demo.run cfg Demo.empty_world).2 w2
      ∧ (∀ q, q ∉ written (concat evss) →
              files w2 !! q = files (Demo.run cfg Demo.empty_world).2 !! q)
      ∧ trace w2 = trace (Demo.run cfg Demo.empty_world).2 ++ concat evss
      ∧ Forall2 (source_skipped cfg) (podList cfg) evss.
Proof.
  split.
  - apply (proj1 (second_run_skips Demo.strptime Demo.guess_extension
                    Demo.http Demo.fromstring Demo.mutagen
                    (Demo.config_of false [Demo.show]) eq_refl)
             1%nat Demo.ep_feb (demo_pc [Demo.ep_feb; Demo.ep_mar])
             (py "/pod/Show/2023-02-15_ep1_Two.mp3") world_with_two).
    + vm_compute. reflexivity.
    + left. apply (bool_decide_unpack _). vm_compute. reflexivity.
  - apply (proj2 (second_run_skips Demo.strptime Demo.guess_extension
                    Demo.http Demo.fromstring Demo.mutagen
                    (Demo.config_of false [Demo.show]) eq_refl)
             Demo.empty_world).
    + unfold wf. cbn [files dirs Demo.empty_world]. set_solver.
    + vm_compute. reflexivity.
Defined.


(** * Further properties *)

(** ** Decimal numbers *)

Lemma N_of_digits_snoc ds d : N_of_digits (ds ++ [d]) = N_of_digits ds * 10 + (d - 48).
Proof. unfold N_of_digits. by rewrite foldl_snoc. Qed.

Lemma digits_S f n acc :
  digits (S f) n acc
  = if n <? 10 then (48 + n mod 10) :: acc
    else digits f (n / 10) ((48 + n mod 10) :: acc).
Proof. done. Qed.

Lemma digits_spec f n acc :
  n < 2 ^ N.of_nat (S f) →
  ∃ ds, digits (S f) n acc = ds ++ acc
        ∧ Forall (λ c, is_digit c = true) ds
        ∧ ds ≠ []
        ∧ N_of_digits ds = n.
Proof.
  revert n acc. induction f as [|f IH]; intros n acc Hn.
  - exists [48 + n mod 10].
    assert (n < 10) as Hlt by (cbn in Hn; lia).
    rewrite digits_S. apply N.ltb_lt in Hlt as Hb. rewrite Hb.
    split_and!; [done| |done|].
    + repeat constructor. unfold is_digit.
      rewrite N.mod_small by done.
      apply andb_true_intro. split; [apply N.leb_le|apply N.leb_le]; lia.
    + unfold N_of_digits. cbn [foldl]. rewrite N.mod_small by done. lia.
  - rewrite digits_S. destruct (n <? 10) eqn:Hb.
    + apply N.ltb_lt in Hb. exists [48 + n mod 10].
      split_and!; [done| |done|].
      * repeat constructor. unfold is_digit. rewrite N.mod_small by done.
        apply andb_true_intro. split; apply N.leb_le; lia.
      * unfold N_of_digits. cbn [foldl]. rewrite N.mod_small by done. lia.
    + apply N.ltb_ge in Hb.
      destruct (IH (n / 10) ((48 + n mod 10) :: acc)) as (ds & Hds & Hall & Hne & Hval).
      { apply N.Div0.div_lt_upper_bound.
        rewrite Nat2N.inj_succ, N.pow_succ_r' in Hn. lia. }
      exists (ds ++ [48 + n mod 10]). split_and!.
      * rewrite Hds. by rewrite <- app_assoc.
      * apply Forall_app. split; [done|]. repeat constructor.
        unfold is_digit.
        assert (n mod 10 < 10) as Hm by (apply N.mod_upper_bound; lia).
        revert Hm. generalize (n mod 10). intros m Hm.
        apply andb_true_intro. split; apply N.leb_le; lia.
      * by destruct ds.
      * rewrite N_of_digits_snoc, Hval.
        pose proof (N.div_mod' n 10) as Hdm. revert Hdm.
        generalize (n / 10) (n mod 10). intros q m Hdm. lia.
Qed.

Lemma str_N_spec n :
  Forall (λ c, is_digit c = true) (str_N n) ∧ str_N n ≠ [] ∧ N_of_digits (str_N n) = n.
Proof.
  unfold str_N.
  destruct (digits_spec (N.to_nat (N.log2 n)) n []) as (ds & Hds & Hall & Hne & Hval).
  - rewrite Nat2N.inj_succ, N2Nat.id.
    destruct (decide (n = 0)) as [->|Hn0]; [done|].
    apply N.log2_spec. lia.
  - rewrite Hds, app_nil_r. by split_and!.
Qed.

Lemma N_of_digits_zeros k s : N_of_digits (replicate k 48 ++ s) = N_of_digits s.
Proof.
  unfold N_of_digits. rewrite foldl_app. f_equal.
  induction k as [|k IH]; [done|]. cbn [replicate foldl]. exact IH.
Qed.

Lemma zfill_digits k s :
  Forall (λ c, is_digit c = true) s → Forall (λ c, is_digit c = true) (zfill k s).
Proof.
  intros Hs. unfold zfill. apply Forall_app. split; [|done].
  by apply Forall_replicate.
Qed.

(** Two runs of digits that end at the same separator are the same run. *)
Lemma digits_split ds1 ds2 sep r1 r2 :
  Forall (λ c, is_digit c = true) ds1 →
  Forall (λ c, is_digit c = true) ds2 →
  is_digit sep = false →
  ds1 ++ sep :: r1 = ds2 ++ sep :: r2 →
  ds1 = ds2 ∧ r1 = r2.
Proof.
  intros H1. revert ds2. induction H1 as [|c ds1 Hc _ IH]; intros ds2 H2 Hsep Heq.
  - destruct H2 as [|c' ds2 Hc' _]; simpl in Heq.
    + by injection Heq as ->.
    + injection Heq as -> _. congruence.
  - destruct H2 as [|c' ds2 Hc' H2]; simpl in Heq.
    + injection Heq as -> _. congruence.
    + injection Heq as -> Heq. destruct (IH ds2 H2 Hsep Heq) as [-> ->]. done.
Qed.

(** ** More on clean_filename *)

Lemma py_underscore : py "_" = [95].
Proof. done. Qed.

Lemma py_dash : py "-" = [45].
Proof. done. Qed.

Lemma py_ep : py "_ep" = [95; 101; 112].
Proof. done. Qed.

Lemma collapse_ws_length r s : (length (collapse_ws r s) ≤ length s)%nat.
Proof.
  revert r. induction s as [|c t IH]; intros r; cbn [collapse_ws]; [done|].
  destruct (is_space c).
  - rewrite length_app, py_underscore. specialize (IH true).
    destruct r; simpl; lia.
  - specialize (IH false). simpl. lia.
Qed.

(** X1: [clean_filename] never returns a longer text than it was given. *)
Theorem clean_filename_length (s : pystr) :
  (length (clean_filename s) ≤ length s)%nat.
Proof.
  rewrite clean_filename_collapse.
  etrans; [apply length_filter|apply collapse_ws_length].
Qed.

Lemma good_not_space c : c ∈ good_character → is_space c = false.
Proof. intros Hc. by apply allowed_not_space, good_character_allowed. Qed.

Lemma clean_filename_of_good s :
  Forall (λ c, c ∈ good_character) s → clean_filename s = s.
Proof.
  intros Hs. rewrite clean_filename_collapse.
  rewrite collapse_ws_no_space; [by apply filter_all_good|].
  eapply Forall_impl; [exact Hs|]. apply good_not_space.
Qed.

(** X2: the texts [clean_filename] leaves unchanged are exactly the texts
    made of characters of [good_character]. *)
Theorem clean_filename_fixed_points (s : pystr) :
  clean_filename s = s ↔ Forall (λ c, c ∈ good_character) s.
Proof.
  split.
  - intros <-. apply clean_filename_good.
  - apply clean_filename_of_good.
Qed.

Lemma run_after_cons r c t : run_after r (c :: t) = run_after (is_space c) t.
Proof. unfold run_after. rewrite last_cons. by destruct (last t). Qed.

Lemma collapse_ws_app r a b :
  collapse_ws r (a ++ b) = collapse_ws r a ++ collapse_ws (run_after r a) b.
Proof.
  revert r. induction a as [|c t IH]; intros r; [done|].
  rewrite run_after_cons. cbn [app collapse_ws].
  destruct (is_space c); rewrite IH.
  - by rewrite <- app_assoc.
  - done.
Qed.

Lemma collapse_ws_head r b :
  (∀ c, head b = Some c → is_space c = false) →
  collapse_ws r b = collapse_ws false b.
Proof.
  destruct b as [|c t]; [done|]. intros Hb. cbn [collapse_ws].
  by rewrite (Hb c eq_refl).
Qed.

Lemma clean_filename_seam_app (a b : pystr) :
  (∀ c, last a = Some c → is_space c = false)
  ∨ (∀ c, head b = Some c → is_space c = false) →
  clean_filename (a ++ b) = clean_filename a ++ clean_filename b.
Proof.
  intros Hseam. rewrite !clean_filename_collapse, collapse_ws_app, filter_app.
  f_equal. f_equal. destruct Hseam as [Ha|Hb].
  - unfold run_after. destruct (last a) as [c|]; [|done].
    by rewrite (Ha c eq_refl).
  - by apply collapse_ws_head.
Qed.

Lemma collapse_ws_cons r c t :
  collapse_ws r (c :: t)
  = if is_space c then (if r then [] else [95]) ++ collapse_ws true t
    else c :: collapse_ws false t.
Proof. done. Qed.

Lemma collapse_ws_last r a c :
  last a = Some c → is_space c = true →
  (∃ x, collapse_ws r a = x ++ [95]) ∨ (r = true ∧ collapse_ws r a = []).
Proof.
  revert r. induction a as [|d t IH]; intros r Hl Hs; [done|].
  rewrite collapse_ws_cons. destruct t as [|d' t'].
  - injection Hl as ->. rewrite Hs. cbn [collapse_ws].
    destruct r; [by right|left]. by exists [].
  - rewrite last_cons_cons in Hl. destruct (is_space d).
    + destruct (IH true Hl Hs) as [[x Hx]|[_ Hx]]; rewrite Hx.
      * left. exists ((if r then [] else [95]) ++ x). by rewrite app_assoc.
      * destruct r; [by right|left]. by exists [].
    + destruct (IH false Hl Hs) as [[x Hx]|[? _]]; [|done].
      rewrite Hx. left. by exists (d :: x).
Qed.

Lemma underscore_good : 95 ∈ good_character.
Proof. apply (bool_decide_unpack _). by vm_compute. Qed.

Lemma clean_filename_seam_run (a b : pystr) (c1 c2 : char) :
  last a = Some c1 → is_space c1 = true →
  head b = Some c2 → is_space c2 = true →
  ∃ a' b',
    clean_filename a = a' ++ [95]
    ∧ clean_filename b = 95 :: b'
    ∧ clean_filename (a ++ b) = a' ++ 95 :: b'.
Proof.
  intros Hl Hs1 Hh Hs2. destruct b as [|c b0]; [done|].
  injection Hh as ->.
  destruct (collapse_ws_last false a c1 Hl Hs1) as [[x Hx]|[? _]]; [|done].
  exists (filter (λ c, c ∈ good_character) x),
         (filter (λ c, c ∈ good_character) (collapse_ws true b0)).
  rewrite !clean_filename_collapse, collapse_ws_app.
  assert (run_after false a = true) as ->.
  { unfold run_after. by rewrite Hl. }
  rewrite Hx, !collapse_ws_cons, Hs2. cbn [app].
  rewrite !filter_app, !filter_cons, filter_nil.
  rewrite !(decide_True (P := 95 ∈ good_character)) by apply underscore_good.
  split_and!; [done..|]. by rewrite <- app_assoc.
Qed.

(** X3: [clean_filename] distributes over a concatenation unless the
    first text ends and the second begins with whitespace; in that case
    the run of whitespace across the seam gives one underscore, where the
    two results put together have two. *)
Theorem clean_filename_app (a b : pystr) :
  ((∀ c, last a = Some c → is_space c = false)
   ∨ (∀ c, head b = Some c → is_space c = false) →
   clean_filename (a ++ b) = clean_filename a ++ clean_filename b)
  ∧ (∀ c1 c2,
       last a = Some c1 → is_space c1 = true →
       head b = Some c2 → is_space c2 = true →
       ∃ a' b',
         clean_filename a = a' ++ [95]
         ∧ clean_filename b = 95 :: b'
         ∧ clean_filename (a ++ b) = a' ++ 95 :: b').
Proof.
  split; [apply clean_filename_seam_app|apply clean_filename_seam_run].
Qed.

Lemma clean_filename_app_witness :
  clean_filename (py "Ep 1" ++ py " of 2")
  = clean_filename (py "Ep 1") ++ clean_filename (py " of 2")
  ∧ ∃ a' b',
      clean_filename (py "a ") = a' ++ [95]
      ∧ clean_filename (py " b") = 95 :: b'
      ∧ clean_filename (py "a " ++ py " b") = a' ++ 95 :: b'.
Proof.
  split.
  - apply (proj1 (clean_filename_app (py "Ep 1") (py " of 2"))).
    left. intros c Hc. vm_compute in Hc. injection Hc as <-. reflexivity.
  - apply (proj2 (clean_filename_app (py "a ") (py " b")) 32 32);
      vm_compute; reflexivity.
Defined.

Example clean_filename_seam :
  clean_filename (py "a " ++ py " b") = py "a_b"
  ∧ clean_filename (py "a ") ++ clean_filename (py " b") = py "a__b".
Proof. split; by vm_compute. Qed.

(** ** The shape of a file name *)

Lemma digit_good c : is_digit c = true → c ∈ good_character.
Proof.
  intros Hc. assert (c < 400) as Hlt.
  { unfold is_digit in Hc. apply andb_prop in Hc as [_ Hc].
    apply N.leb_le in Hc. lia. }
  revert c Hlt Hc.
  apply (below_by_cases (λ c, is_digit c = true → c ∈ good_character) 400).
  by vm_compute.
Qed.

Lemma out_date_split d :
  out_date d
  = zfill 4 (str_N (year d)) ++ 45 :: zfill 2 (str_N (month d))
    ++ 45 :: zfill 2 (str_N (day d)).
Proof. unfold out_date. by rewrite py_dash. Qed.

Lemma zfill_str_N_digits k n : Forall (λ c, is_digit c = true) (zfill k (str_N n)).
Proof. apply zfill_digits, str_N_spec. Qed.

Lemma zfill_str_N_value k n : N_of_digits (zfill k (str_N n)) = n.
Proof. unfold zfill. rewrite N_of_digits_zeros. apply str_N_spec. Qed.

Lemma zfill_str_N_nonempty k n : zfill k (str_N n) ≠ [].
Proof.
  unfold zfill. destruct (str_N_spec n) as (_ & Hne & _).
  intros Heq. apply app_eq_nil in Heq as [_ Heq]. done.
Qed.

Lemma out_date_good d : Forall (λ c, c ∈ good_character) (out_date d).
Proof.
  assert (45 ∈ good_character) as Hdash by (apply (bool_decide_unpack _); by vm_compute).
  assert (∀ k n, Forall (λ c, c ∈ good_character) (zfill k (str_N n))) as Hz.
  { intros k n. eapply Forall_impl; [apply zfill_str_N_digits|apply digit_good]. }
  rewrite out_date_split.
  apply Forall_app; split; [apply Hz|].
  apply Forall_cons; split; [exact Hdash|].
  apply Forall_app; split; [apply Hz|].
  apply Forall_cons; split; [exact Hdash|apply Hz].
Qed.

Lemma str_N_good n : Forall (λ c, c ∈ good_character) (str_N n).
Proof.
  eapply Forall_impl; [apply str_N_spec|apply digit_good].
Qed.

Lemma build_filename_parts (n : nat) (t : episode_tags) :
  build_filename n t
  = out_date (t_date t) ++ py "_ep" ++ str_N (N.of_nat n) ++ py "_"
    ++ clean_filename (fmt (t_title t) ++ fmt (t_extension t)).
Proof.
  unfold build_filename.
  set (rest := fmt (t_title t) ++ fmt (t_extension t)).
  set (pre := out_date (t_date t) ++ py "_ep" ++ str_N (N.of_nat n) ++ py "_").
  assert (Forall (λ c, c ∈ good_character) pre) as Hpre.
  { subst pre. rewrite py_ep, py_underscore.
    apply Forall_app; split; [apply out_date_good|].
    apply Forall_app; split.
    { repeat constructor; apply (bool_decide_unpack _); by vm_compute. }
    apply Forall_app; split; [apply str_N_good|].
    repeat constructor; apply (bool_decide_unpack _); by vm_compute. }
  assert (last pre = Some 95) as Hlast.
  { subst pre. rewrite py_underscore, !app_assoc. apply last_snoc. }
  transitivity (clean_filename (pre ++ rest)).
  { subst pre rest. by rewrite <- !app_assoc. }
  rewrite clean_filename_seam_app.
  - rewrite (clean_filename_of_good pre Hpre). subst pre. by rewrite <- !app_assoc.
  - left. intros c Hc. rewrite Hlast in Hc. by injection Hc as <-.
Qed.

(** X4: the file name of an episode is the date, [_ep], the number and
    [_], all kept as they are, followed by the sanitized title and
    extension. *)
Theorem build_filename_shape (n : nat) (t : episode_tags) :
  build_filename n t
  = out_date (t_date t) ++ py "_ep" ++ str_N (N.of_nat n) ++ py "_"
    ++ clean_filename (fmt (t_title t) ++ fmt (t_extension t)).
Proof. apply build_filename_parts. Qed.

(** X5: two episodes get the same file name exactly when they have the
    same number, the same calendar date, and a title and extension that
    sanitize to the same text. *)
Theorem build_filename_collision (n1 n2 : nat) (t1 t2 : episode_tags) :
  build_filename n1 t1 = build_filename n2 t2
  ↔ n1 = n2
    ∧ year (t_date t1) = year (t_date t2)
    ∧ month (t_date t1) = month (t_date t2)
    ∧ day (t_date t1) = day (t_date t2)
    ∧ clean_filename (fmt (t_title t1) ++ fmt (t_extension t1))
      = clean_filename (fmt (t_title t2) ++ fmt (t_extension t2)).
Proof.
  rewrite !build_filename_parts, !out_date_split, py_ep, py_underscore.
  split.
  - intros Heq.
    repeat (rewrite <- app_assoc in Heq || rewrite <- app_comm_cons in Heq).
    apply digits_split in Heq as [Hy Heq];
      [|apply zfill_str_N_digits..|done].
    apply digits_split in Heq as [Hm Heq];
      [|apply zfill_str_N_digits..|done].
    apply digits_split in Heq as [Hd Heq];
      [|apply zfill_str_N_digits..|done].
    injection Heq as Heq.
    apply digits_split in Heq as [Hn Heq]; [|apply str_N_spec..|done].
    split_and!.
    + apply Nat2N.inj. destruct (str_N_spec (N.of_nat n1)) as (_ & _ & <-).
      destruct (str_N_spec (N.of_nat n2)) as (_ & _ & <-). by rewrite Hn.
    + by rewrite <- (zfill_str_N_value 4 (year _)), Hy, zfill_str_N_value.
    + by rewrite <- (zfill_str_N_value 2 (month _)), Hm, zfill_str_N_value.
    + by rewrite <- (zfill_str_N_value 2 (day _)), Hd, zfill_str_N_value.
    + done.
  - intros (-> & -> & -> & -> & ->). done.
Qed.

Lemma build_filename_head n t :
  ∃ c f, build_filename n t = c :: f ∧ is_digit c = true.
Proof.
  rewrite build_filename_parts, out_date_split.
  pose proof (zfill_str_N_digits 4 (year (t_date t))) as Hd.
  pose proof (zfill_str_N_nonempty 4 (year (t_date t))) as Hne.
  destruct (zfill 4 (str_N (year (t_date t)))) as [|c y]; [done|].
  exists c. eexists. split; [done|]. by inversion Hd.
Qed.

(** X6: the destination path of an episode is the source directory
    followed by a file name that is not empty and holds no ['/']: the
    file is placed directly in that directory. *)
Theorem full_path_in_out_dir strptime guess_extension (n : nat)
    (ep : episode) (pc : podcast_config) (p : pystr) :
  full_path strptime guess_extension n ep pc = Ok p →
  ∃ f, p = outDir pc ++ f ∧ f ≠ [] ∧ 47 ∉ f.
Proof.
  unfold full_path.
  destruct (read_tags strptime guess_extension ep) as [t|]; [|done].
  intros [= <-]. exists (build_filename n t). split_and!; [done| |].
  - by destruct (build_filename_head n t) as (c & f & -> & _).
  - intros Hin. unfold build_filename in Hin.
    pose proof (clean_filename_good
      (out_date (t_date t) ++ py "_ep" ++ str_N (N.of_nat n) ++ py "_"
       ++ fmt (t_title t) ++ fmt (t_extension t))) as Hgood.
    rewrite Forall_forall in Hgood. apply Hgood in Hin.
    revert Hin. apply (bool_decide_unpack _). by vm_compute.
Qed.

Lemma full_path_in_out_dir_witness :
  ∃ f, py "/pod/Show/2023-01-10_ep1_One.mp3" = outDir (demo_pc []) ++ f
       ∧ f ≠ [] ∧ 47 ∉ f.
Proof.
  apply (full_path_in_out_dir Demo.strptime Demo.guess_extension 1
           Demo.ep_jan (demo_pc [])).
  vm_compute. reflexivity.
Defined.

Lemma full_path_cover_ne strptime guess_extension (n : nat)
    (ep : episode) (pc : podcast_config) (p ext : pystr) :
  full_path strptime guess_extension n ep pc = Ok p →
  p ≠ outDir pc ++ py "cover" ++ ext.
Proof.
  unfold full_path.
  destruct (read_tags strptime guess_extension ep) as [t|]; [|done].
  intros [= <-] Heq. apply app_inv_head in Heq.
  destruct (build_filename_head n t) as (c & f & Hf & Hc).
  rewrite Hf in Heq. by injection Heq as -> _.
Qed.

(** X7: the destination path of an episode is never the path of the
    cover file of its source, whatever the extension of the cover: the
    name of an episode starts with a digit. *)
Theorem full_path_not_cover strptime guess_extension (n : nat)
    (ep : episode) (pc : podcast_config) (p ext : pystr) :
  full_path strptime guess_extension n ep pc = Ok p →
  p ≠ outDir pc ++ py "cover" ++ ext.
Proof. apply full_path_cover_ne. Qed.

Lemma full_path_not_cover_witness :
  py "/pod/Show/2023-01-10_ep1_One.mp3"
  ≠ outDir (demo_pc []) ++ py "cover" ++ py ".jpg".
Proof.
  apply (full_path_not_cover Demo.strptime Demo.guess_extension 1
           Demo.ep_jan (demo_pc [])).
  vm_compute. reflexivity.
Defined.

(** ** More on date_sort *)

Lemma map_result_cons {A B : Type} (f : A → result B) x t :
  map_result f (x :: t)
  = match f x with
    | Ok y => match map_result f t with
              | Ok ys => Ok (y :: ys)
              | Raise e => Raise e
              end
    | Raise e => Raise e
    end.
Proof. done. Qed.

Lemma map_result_raise {A B : Type} (f : A → result B) (l : list A) e :
  map_result f l = Raise e
  ↔ ∃ l1 x l2, l = l1 ++ x :: l2
               ∧ Forall (λ y, ∃ b, f y = Ok b) l1
               ∧ f x = Raise e.
Proof.
  split.
  - induction l as [|x t IH]; [done|].
    rewrite map_result_cons. destruct (f x) as [b|e'] eqn:Hx.
    + destruct (map_result f t) as [ys|e'']; [done|].
      intros [= ->]. destruct (IH eq_refl) as (l1 & y & l2 & -> & Hl1 & Hy).
      exists (x :: l1), y, l2. split_and!; [done| |done].
      constructor; eauto.
    + intros [= ->]. exists [], x, t. by split_and!.
  - intros (l1 & x & l2 & -> & Hl1 & Hx).
    induction Hl1 as [|y l1 [b Hb] _ IH]; cbn [app]; rewrite map_result_cons.
    + by rewrite Hx.
    + by rewrite Hb, IH.
Qed.

(** X8: [date_sort] raises exactly when some item has no readable date,
    and then with the exception of the first such item in feed order; no
    part of the list is returned. *)
Theorem date_sort_raise strptime (l : list episode) (e : exn) :
  date_sort strptime l = Raise e
  ↔ ∃ l1 x l2, l = l1 ++ x :: l2
               ∧ Forall (λ y, ∃ d, extract_date strptime y = Ok d) l1
               ∧ extract_date strptime x = Raise e.
Proof.
  unfold date_sort.
  set (g := λ e0 : episode, d ← extract_date strptime e0; Ok (d, e0)).
  assert (∀ y, (∃ b, g y = Ok b) ↔ ∃ d, extract_date strptime y = Ok d) as Hok.
  { intros y. unfold g, mbind, result_bind.
    destruct (extract_date strptime y); split; intros [? ?]; by eauto. }
  assert (∀ y, g y = Raise e ↔ extract_date strptime y = Raise e) as Hraise.
  { intros y. unfold g, mbind, result_bind.
    destruct (extract_date strptime y); split; intros Heq; by simplify_eq. }
  transitivity (map_result g l = Raise e).
  { unfold mbind, result_bind.
    destruct (map_result g l); split; intros Heq; by simplify_eq. }
  rewrite map_result_raise. split.
  - intros (l1 & x & l2 & Heq & Hl1 & Hx). exists l1, x, l2.
    split_and!; [done| |by apply Hraise].
    eapply Forall_impl; [exact Hl1|]. intros y. apply Hok.
  - intros (l1 & x & l2 & Heq & Hl1 & Hx). exists l1, x, l2.
    split_and!; [done| |by apply Hraise].
    eapply Forall_impl; [exact Hl1|]. intros y. apply Hok.
Qed.

Lemma date_sort_only strptime (l l' : list episode) :
  Forall (λ e, ∃ d, extract_date strptime e = Ok d) l →
  StronglySorted (λ a b, pub_instant strptime a ≤ pub_instant strptime b)%Z l' →
  (∀ t, filter (λ e, pub_instant strptime e = t) l'
        = filter (λ e, pub_instant strptime e = t) l) →
  date_sort strptime l = Ok l'.
Proof.
  intros Hl Hsorted Hstable. rewrite (date_sort_ok strptime l Hl). f_equal.
  apply (stable_sort_unique (pub_instant strptime)).
  - apply sorted_by_sorted.
  - exact Hsorted.
  - intros t. by rewrite sorted_by_stable, Hstable.
Qed.

(** X9: the result of [date_sort] is the only arrangement that is in
    ascending order of instant and keeps, for every instant, the items of
    that instant in feed order. *)
Theorem date_sort_unique strptime (l l' : list episode) :
  Forall (λ e, ∃ d, extract_date strptime e = Ok d) l →
  StronglySorted (λ a b, pub_instant strptime a ≤ pub_instant strptime b)%Z l' →
  (∀ t, filter (λ e, pub_instant strptime e = t) l'
        = filter (λ e, pub_instant strptime e = t) l) →
  date_sort strptime l = Ok l'.
Proof. apply date_sort_only. Qed.

Lemma date_sort_unique_witness :
  date_sort Demo.strptime [Demo.ep_jan; Demo.ep_feb; Demo.ep_mar]
  = Ok [Demo.ep_jan; Demo.ep_feb; Demo.ep_mar].
Proof.
  apply (date_sort_unique Demo.strptime).
  - repeat constructor; eexists; vm_compute; reflexivity.
  - apply (bool_decide_unpack _). vm_compute. reflexivity.
  - reflexivity.
Defined.

Section Descending.
Context {A : Type} (key : A → Z).

Lemma descending_reverse (l : list A) :
  StronglySorted (λ a b, key b < key a)%Z l →
  StronglySorted (λ a b, key a ≤ key b)%Z (reverse l).
Proof.
  induction 1 as [|x t Ht IH Hx]; [constructor|].
  rewrite reverse_cons. apply StronglySorted_app_2; [|done|repeat constructor].
  intros a b Ha Hb. rewrite elem_of_reverse in Ha.
  apply list_elem_of_singleton in Hb as ->.
  rewrite Forall_forall in Hx. specialize (Hx a Ha). lia.
Qed.

Lemma descending_filter (l : list A) k :
  StronglySorted (λ a b, key b < key a)%Z l →
  reverse (filter (λ a, key a = k) l) = filter (λ a, key a = k) l.
Proof.
  induction 1 as [|x t Ht IH Hx]; [done|].
  rewrite filter_cons. case_decide as Hk; [|done].
  assert (filter (λ a, key a = k) t = []) as ->; [|done].
  clear IH Ht. induction Hx as [|y t Hy _ IH]; [done|].
  rewrite filter_cons. case_decide; [lia|done].
Qed.
End Descending.

(** X10: a feed listed newest first, with strictly decreasing instants,
    is sorted into its exact reverse. *)
Theorem date_sort_newest_first strptime (l : list episode) :
  Forall (λ e, ∃ d, extract_date strptime e = Ok d) l →
  StronglySorted (λ a b, pub_instant strptime b < pub_instant strptime a)%Z l →
  date_sort strptime l = Ok (reverse l).
Proof.
  intros Hl Hdesc. apply date_sort_only; [done|by apply descending_reverse|].
  intros t. rewrite filter_reverse. by apply descending_filter.
Qed.

Lemma date_sort_newest_first_witness :
  date_sort Demo.strptime [Demo.ep_mar; Demo.ep_feb; Demo.ep_jan]
  = Ok (reverse [Demo.ep_mar; Demo.ep_feb; Demo.ep_jan]).
Proof.
  apply (date_sort_newest_first Demo.strptime).
  - repeat constructor; eexists; vm_compute; reflexivity.
  - apply (bool_decide_unpack _). vm_compute. reflexivity.
Defined.


(** ** More on get_rss *)

(** X11: [get_rss] never changes a file or a directory; for a location
    that starts with [http] it adds exactly one fetch of that location to
    the trace (timeout 120), whether or not it then succeeds, and for any
    other location it adds nothing. *)
Theorem get_rss_effect http cfg (xml_location : pystr) (w : world) :
  (get_rss http cfg xml_location w).2
  = if bool_decide (take 4 xml_location = py "http")
    then log [EvGet xml_location 120] w
    else w.
Proof.
  unfold get_rss. case_bool_decide.
  - unfold requests_get, mbind, M_bind, emit, lift, mret, M_ret.
    destruct (http xml_location) as [r|]; [|done]. cbn [require content].
    destruct (decode (content r)) as [text|]; [|done]. cbn [require].
    by destruct (map_result _ _).
  - unfold read_text, mbind, M_bind, lift, mret, M_ret.
    destruct (files w !! xml_location) as [b|]; [|done].
    by destruct (require UnicodeDecodeError (decode b)).
Qed.

Lemma foldl_insert_last (entries : list (pystr * pystr))
    (m : gmap pystr pystr) (k : pystr) :
  foldl (λ ns x, <[x.1 := x.2]> ns) m entries !! k
  = match last (filter (λ x, x.1 = k) entries) with
    | Some x => Some x.2
    | None => m !! k
    end.
Proof.
  revert m. induction entries as [|x t IH]; intros m; cbn [foldl]; [done|].
  rewrite IH, filter_cons. case_decide as Hk.
  - rewrite last_cons. destruct (last (filter _ t)); [done|].
    by rewrite <- Hk, lookup_insert_eq.
  - destruct (last (filter _ t)); [done|]. by rewrite lookup_insert_ne.
Qed.

(** X12: when [get_rss] succeeds, the location starts with [http] and
    was fetched, the document returned is the body as received, that body
    is valid UTF-8, and the namespace map sends each prefix to the URI of
    its last declaration in the text. *)
Theorem get_rss_ok (http : pystr → option response) (cfg : config)
    (xml_location : pystr) (w w' : world)
    (xml : pyval) (ns : gmap pystr pystr) :
  get_rss http cfg xml_location w = (Ok (xml, ns), w') →
  ∃ r text entries,
    take 4 xml_location = py "http"
    ∧ w' = log [EvGet xml_location 120] w
    ∧ http xml_location = Some r
    ∧ xml = VBytes (content r)
    ∧ decode (content r) = Some text
    ∧ map_result ns_entry (findall (namespaceRegex cfg) text) = Ok entries
    ∧ ∀ k : pystr,
        ns !! k = snd <$> last (filter (λ x : pystr * pystr, x.1 = k) entries).
Proof.
  unfold get_rss. case_bool_decide as Hloc.
  - unfold requests_get, mbind, M_bind, emit, lift, mret, M_ret.
    destruct (http xml_location) as [r|]; [|done]. cbn [require content].
    destruct (decode (content r)) as [text|] eqn:Hdec; [|done]. cbn [require].
    destruct (map_result _ _) as [entries|] eqn:Hent; [|done].
    intros [= <- <- <-]. exists r, text, entries. split_and!; [done..|].
    intros k. rewrite foldl_insert_last, lookup_empty.
    by destruct (last _).
  - unfold read_text, mbind, M_bind, lift, mret, M_ret.
    destruct (files w !! xml_location) as [b|]; [|done].
    by destruct (require UnicodeDecodeError (decode b)).
Qed.

Lemma get_rss_ok_witness :
  ∃ r text entries,
    take 4 (py "http://feeds.example/show.xml") = py "http"
    ∧ log [EvGet (py "http://feeds.example/show.xml") 120] Demo.empty_world
      = log [EvGet (py "http://feeds.example/show.xml") 120] Demo.empty_world
    ∧ Demo.http (py "http://feeds.example/show.xml") = Some r
    ∧ VBytes Demo.feed_text = VBytes (content r)
    ∧ decode (content r) = Some text
    ∧ map_result ns_entry
        (findall (namespaceRegex (Demo.config_of false [])) text) = Ok entries
    ∧ ∀ k : pystr,
        ({[ py "itunes" := Demo.itunes_uri ]} : gmap pystr pystr) !! k
        = snd <$> last (filter (λ x : pystr * pystr, x.1 = k) entries).
Proof.
  apply (get_rss_ok Demo.http (Demo.config_of false [])
           (py "http://feeds.example/show.xml") Demo.empty_world
           (log [EvGet (py "http://feeds.example/show.xml") 120] Demo.empty_world)).
  vm_compute. reflexivity.
Defined.

Lemma makedirs_cases p w :
  makedirs p w = (Raise OSError, w)
  ∨ makedirs p w
    = (Ok (), World (files w) ({[p]} ∪ dirs w) (trace w ++ [EvMkdir p])).
Proof. unfold makedirs. case_bool_decide; by eauto. Qed.

Lemma get_rss_local http cfg (xml_location : pystr) (w : world) :
  take 4 xml_location ≠ py "http" →
  ∃ e, get_rss http cfg xml_location w = (Raise e, w)
       ∧ (e = OSError ∨ e = UnicodeDecodeError ∨ e = AttributeError).
Proof.
  intros Hloc. unfold get_rss. rewrite bool_decide_eq_false_2 by done.
  unfold read_text, mbind, M_bind, lift, mret, M_ret.
  destruct (files w !! xml_location) as [b|]; [|by eauto].
  destruct (decode b); cbn [require]; by eauto.
Qed.

(** X13: a source whose feed location does not start with [http] can
    never be processed: [process_source] raises (the file is missing, is
    not UTF-8, or, when it could be read, the text has no [decode]), having
    fetched nothing and written no file; at most the directory of the
    source has been created. *)
Theorem process_source_local_fails strptime guess_extension http fromstring
    mutagen cfg (i : nat) (p : podcast) (w : world) :
  take 4 (rssFeedUrl p) ≠ py "http" →
  ∃ e w' evs,
    process_source strptime guess_extension http fromstring mutagen cfg i p w
    = (Raise e, w')
    ∧ (e = OSError ∨ e = UnicodeDecodeError ∨ e = AttributeError)
    ∧ files w' = files w
    ∧ trace w' = trace w ++ evs
    ∧ Forall (λ ev, is_print ev ∨ ev = EvMkdir (outPath cfg ++ name p ++ py "/"))
             evs.
Proof.
  intros Hloc. unfold process_source. cbv zeta.
  erewrite bind_ok; [|reflexivity].
  erewrite bind_ok; [|reflexivity].
  destruct (bool_decide (outPath cfg ++ name p ++ py "/" ∈ dirs _)); cbn [negb].
  - erewrite bind_ok; [|reflexivity].
    edestruct (get_rss_local http cfg (rssFeedUrl p)) as (e & Hg & He); [done|].
    rewrite (bind_raise _ _ _ _ _ Hg).
    eexists _, _, _. split_and!; [done..|]. by repeat constructor; left.
  - match goal with
    | |- context [makedirs ?d ≫= _] =>
      match goal with
      | |- ∃ _ _ _, (_ ≫= _) ?w0 = _ ∧ _ =>
        destruct (makedirs_cases d w0) as [Hmk|Hmk]
      end
    end.
    + rewrite (bind_raise _ _ _ _ _ Hmk).
      eexists _, _, _. split_and!; [done|by left|done..|].
      by repeat constructor; left.
    + rewrite (bind_ok _ _ _ _ _ Hmk).
      edestruct (get_rss_local http cfg (rssFeedUrl p)) as (e & Hg & He); [done|].
      rewrite (bind_raise _ _ _ _ _ Hg).
      eexists _, _, _. split_and!; [done..| |].
      * cbn [trace]. by rewrite <- app_assoc.
      * apply Forall_cons; split; [by left|].
        apply Forall_cons; split; [by right|]. apply Forall_nil_2.
Qed.

Lemma process_source_local_fails_witness :
  ∃ e w' evs,
    process_source Demo.strptime Demo.guess_extension Demo.http Demo.fromstring
                   Demo.mutagen (Demo.config_of false [local_show]) 0 local_show
                   world_with_feed
    = (Raise e, w')
    ∧ (e = OSError ∨ e = UnicodeDecodeError ∨ e = AttributeError)
    ∧ files w' = files world_with_feed
    ∧ trace w' = trace world_with_feed ++ evs
    ∧ Forall (λ ev, is_print ev
                    ∨ ev = EvMkdir (outPath (Demo.config_of false [local_show])
                                    ++ name local_show ++ py "/"))
             evs.
Proof.
  apply (process_source_local_fails Demo.strptime Demo.guess_extension Demo.http
           Demo.fromstring Demo.mutagen (Demo.config_of false [local_show])
           0 local_show world_with_feed).
  vm_compute. intros H; discriminate H.
Defined.


(** ** What process_podcast touches *)

#[global] Instance touches_only_preorder P : PreOrder (touches_only P).
Proof.
  split.
  - by intros w.
  - intros w1 w2 w3 [Hd1 Hf1] [Hd2 Hf2]. split; [congruence|].
    intros q Hq. by rewrite Hf2, Hf1.
Qed.

Lemma touches_emit P e : keeps (touches_only P) (emit e).
Proof. by intros w. Qed.

Lemma touches_write_file (P : pystr → Prop) p data :
  P p → keeps (touches_only P) (write_file p data).
Proof.
  intros Hp w. unfold write_file. case_bool_decide; cbn [snd]; [reflexivity|].
  split; [done|]. intros q Hq. cbn [files]. apply lookup_insert_ne.
  by intros ->.
Qed.

#[global] Instance only_logs_preorder : PreOrder only_logs.
Proof.
  split.
  - intros w. split_and!; [done..|]. exists []. by rewrite app_nil_r.
  - intros w1 w2 w3 (Hd1 & Hf1 & evs1 & Ht1) (Hd2 & Hf2 & evs2 & Ht2).
    split_and!; [congruence..|]. exists (evs1 ++ evs2).
    by rewrite Ht2, Ht1, app_assoc.
Qed.

Lemma only_logs_emit e : keeps only_logs (emit e).
Proof. intros w. split_and!; [done..|]. by exists [e]. Qed.

Lemma bind_lift {A B : Type} (r : result A) (f : A → M B) w :
  (lift r ≫= f) w = match r with Ok a => f a w | Raise e => (Raise e, w) end.
Proof. by destruct r. Qed.

Lemma process_podcast_touches strptime guess_extension http mutagen cfg
    (n : nat) (ep : episode) (pc : podcast_config) (w : world) :
  touches_only (λ q, full_path strptime guess_extension n ep pc = Ok q) w
    (process_podcast strptime guess_extension http mutagen cfg n ep pc w).2.
Proof.
  unfold process_podcast, requests_get, print, full_path. cbv zeta.
  rewrite bind_lift.
  destruct (read_tags strptime guess_extension ep) as [t|e]; [|done].
  cbn [mbind result_bind].
  set (p := outDir pc ++ build_filename n t).
  match goal with
  | |- context [(?m w).2] =>
    assert (keeps (touches_only (λ q, q = p)) m) as Hk
  end.
  { repeat keeps_step
      ltac:(first [apply touches_emit | by apply touches_write_file]). }
  destruct (Hk w) as [Hd Hf]. split; [done|].
  intros q Hq. apply Hf. intros ->. by apply Hq.
Qed.

(** X14: [process_podcast] changes no directory, and no file other than
    the one at the destination path of its episode; when that path cannot
    be derived it changes no file at all. *)
Theorem process_podcast_frame strptime guess_extension http mutagen cfg
    (n : nat) (ep : episode) (pc : podcast_config) (w : world) :
  let w' := (process_podcast strptime guess_extension http mutagen cfg
                             n ep pc w).2 in
  dirs w' = dirs w
  ∧ ∀ q, full_path strptime guess_extension n ep pc ≠ Ok q →
         files w' !! q = files w !! q.
Proof.
  apply (process_podcast_touches strptime guess_extension http mutagen cfg).
Qed.

(** ** A download, step by step *)

Lemma requests_get_ok http u timeout r w :
  http u = Some r →
  requests_get http (VStr u) timeout w = (Ok r, log [EvGet u timeout] w).
Proof.
  intros Hu. unfold requests_get, mbind, M_bind, emit, lift. by rewrite Hu.
Qed.

Lemma requests_get_fail http u timeout w :
  http u = None →
  requests_get http (VStr u) timeout w
  = (Raise RequestException, log [EvGet u timeout] w).
Proof.
  intros Hu. unfold requests_get, mbind, M_bind, emit, lift. by rewrite Hu.
Qed.

Lemma write_file_ok p data w :
  p ∉ dirs w →
  write_file p data w
  = (Ok (), World (<[p := data]> (files w)) (dirs w)
                  (trace w ++ [EvWrite p data])).
Proof. intros Hp. unfold write_file. by rewrite bool_decide_eq_false_2. Qed.

Lemma read_bytes_ok p data w :
  files w !! p = Some data → read_bytes p w = (Ok data, w).
Proof. intros Hp. unfold read_bytes. by rewrite Hp. Qed.

Lemma path_exists_absent p w :
  ¬ present p w → path_exists p w = (Ok false, w).
Proof.
  intros Hp. unfold path_exists.
  rewrite !bool_decide_eq_false_2; [done|..]; intros Hin; apply Hp;
    [by right|by left].
Qed.

Section Download.
Context (strptime : pystr → option datetime)
        (guess_extension : pystr → option pystr)
        (http : pystr → option response)
        (mutagen : bytes → tagset → result bytes)
        (cfg : config)
        (Hwet : dryRun cfg = false).
Context (n : nat) (ep : episode) (pc : podcast_config) (w : world)
        (t : episode_tags) (u : pystr).
Context (Ht : read_tags strptime guess_extension ep = Ok t)
        (Hu : url_filter (episodeUrlFilter (pc_podcast pc)) (of_opt (t_rawURL t))
              = Ok (VStr u))
        (Habsent : ¬ present (outDir pc ++ build_filename n t) w).

Local Abbreviation p := (outDir pc ++ build_filename n t).

(** The part of [process_podcast] up to the test of the path. *)
Lemma download_start :
  process_podcast strptime guess_extension http mutagen cfg n ep pc w
  = (found ← lift (find_itunes (namespaces pc) (ep_images ep));
     episode_art_url ← match found with
                       | Some href => mret href
                       | None => print (py "No Episode Art Found!");; mret None
                       end;
     '(episode_art, episode_art_mime) ←
       match episode_art_url with
       | Some (c :: href) =>
         processed_art_url ← lift (url_filter (artUrlFilter (pc_podcast pc))
                                              (VStr (c :: href)));
         eart ← requests_get http processed_art_url 30;
         mime ← lift (require KeyError (content_type eart));
         mret (content eart, mime)
       | _ => mret (art (pc_tags pc), artMime (pc_tags pc))
       end;
     print (py "Downloading " ++ build_filename n t);;
     html ← requests_get http (VStr u) 30;
     print (py "Saving " ++ build_filename n t);;
     write_file p (content html);;
     data ← read_bytes p;
     tagged ← lift (mutagen data
       (tagset_of n t (pc_tags pc) episode_art episode_art_mime));
     write_file p tagged)
    (log [EvPrint (py "Working on " ++ fmt (t_title t))] w).
Proof.
  unfold process_podcast. cbv zeta.
  rewrite bind_lift, Ht.
  erewrite bind_ok; [|reflexivity].
  rewrite bind_lift, Hu.
  erewrite bind_ok; [|by apply path_exists_absent].
  rewrite Hwet. cbn [negb andb]. reflexivity.
Qed.

(** From the message [Downloading] on, for given artwork. *)
Lemma download_tail (art_data : bytes) (art_mime : pystr) (w1 : world) :
  dirs w1 = dirs w → files w1 = files w →
  (print (py "Downloading " ++ build_filename n t);;
   html ← requests_get http (VStr u) 30;
   print (py "Saving " ++ build_filename n t);;
   write_file p (content html);;
   data ← read_bytes p;
   tagged ← lift (mutagen data (tagset_of n t (pc_tags pc) art_data art_mime));
   write_file p tagged) w1
  = download_outcome http mutagen (build_filename n t) p u
      (tagset_of n t (pc_tags pc) art_data art_mime) w w1.
Proof.
  intros Hd Hf. unfold download_outcome.
  assert (p ∉ dirs w) as Hnd by (intros Hin; apply Habsent; by right).
  erewrite bind_ok; [|reflexivity].
  destruct (http u) as [html|] eqn:Hhttp.
  2:{ erewrite bind_raise; [|by apply requests_get_fail].
      unfold log. cbn [files dirs trace]. by rewrite <- app_assoc. }
  erewrite bind_ok; [|by apply requests_get_ok].
  erewrite bind_ok; [|reflexivity].
  erewrite bind_ok; [|apply write_file_ok; cbn [dirs log]; by rewrite Hd].
  erewrite bind_ok; [|apply read_bytes_ok; cbn [files]; apply lookup_insert_eq].
  rewrite bind_lift.
  destruct (mutagen (content html) _) as [tagged|e].
  - rewrite write_file_ok by (cbn [dirs log]; by rewrite Hd).
    cbn [files dirs trace log]. rewrite Hd, Hf, insert_insert_eq.
    by rewrite <- !app_assoc.
  - cbn [files dirs trace log]. rewrite Hd, Hf. by rewrite <- !app_assoc.
Qed.

(** The artwork is settled without touching a file; then the download
    proper runs. *)
Lemma download_cases :
  ∃ w1 evs,
    dirs w1 = dirs w ∧ files w1 = files w
    ∧ trace w1 = trace w ++ EvPrint (py "Working on " ++ fmt (t_title t)) :: evs
    ∧ ((∃ e, process_podcast strptime guess_extension http mutagen cfg n ep pc w
             = (Raise e, w1))
       ∨ (∃ art_data art_mime,
            process_podcast strptime guess_extension http mutagen cfg n ep pc w
            = download_outcome http mutagen (build_filename n t) p u
                (tagset_of n t (pc_tags pc) art_data art_mime) w w1)).
Proof.
  rewrite download_start, bind_lift.
  destruct (find_itunes (namespaces pc) (ep_images ep)) as [found|e].
  2:{ exists (log [EvPrint (py "Working on " ++ fmt (t_title t))] w), [].
      split_and!; [done..|]. left. by eexists. }
  destruct found as [[[|c href]|]|]; cbv beta iota.
  - erewrite bind_ok; [|reflexivity]. cbv beta iota.
    erewrite bind_ok; [|reflexivity]. cbv beta iota.
    rewrite download_tail by done.
    exists (log [EvPrint (py "Working on " ++ fmt (t_title t))] w), [].
    split_and!; [done..|]. right. by eexists _, _.
  - erewrite bind_ok; [|reflexivity]. cbv beta iota.
    set (inner := processed_art_url ← lift _; _).
    assert (keeps only_logs inner) as Hk.
    { subst inner. unfold requests_get.
      repeat keeps_step ltac:(apply only_logs_emit). }
    destruct (inner (log [EvPrint (py "Working on " ++ fmt (t_title t))] w))
      as [[[a m]|e] w1] eqn:Hin;
      destruct (keeps_run _ _ _ _ _ Hk Hin) as (Hd & Hf & evs & Hevs);
      cbn [trace log] in Hevs; rewrite <- app_assoc in Hevs.
    + erewrite bind_ok; [|exact Hin]. cbv beta iota.
      rewrite download_tail by done.
      exists w1, evs. split_and!; [done..|]. right. by eexists _, _.
    + erewrite bind_raise; [|exact Hin].
      exists w1, evs. split_and!; [done..|]. left. by eexists.
  - erewrite bind_ok; [|reflexivity]. cbv beta iota.
    erewrite bind_ok; [|reflexivity]. cbv beta iota.
    rewrite download_tail by done.
    exists (log [EvPrint (py "Working on " ++ fmt (t_title t))] w), [].
    split_and!; [done..|]. right. by eexists _, _.
  - erewrite bind_ok; [|reflexivity]. cbv beta iota.
    erewrite bind_ok; [|reflexivity]. cbv beta iota.
    rewrite download_tail by done.
    exists (log [EvPrint (py "No Episode Art Found!")]
              (log [EvPrint (py "Working on " ++ fmt (t_title t))] w)),
           [EvPrint (py "No Episode Art Found!")].
    split_and!; [done..| |].
    + cbn [trace log]. by rewrite <- app_assoc.
    + right. by eexists _, _.
Qed.
End Download.

(** X15: an episode with no artwork of its own (dry-run off, path
    absent, media fetched and tagged without error) costs exactly one
    fetch, that of the media (timeout 30); the file at the destination
    path ends up holding the tagged media, the picture handed to the
    tagger is the channel artwork already in memory, and nothing else is
    written. *)
Theorem download_without_episode_art strptime guess_extension http mutagen cfg
    (n : nat) (ep : episode) (pc : podcast_config) (w : world)
    (t : episode_tags) (u : pystr) (found : option (option pystr))
    (html : response) (tagged : bytes) :
  dryRun cfg = false →
  read_tags strptime guess_extension ep = Ok t →
  url_filter (episodeUrlFilter (pc_podcast pc)) (of_opt (t_rawURL t))
  = Ok (VStr u) →
  ¬ present (outDir pc ++ build_filename n t) w →
  find_itunes (namespaces pc) (ep_images ep) = Ok found →
  no_art_reference found →
  http u = Some html →
  mutagen (content html)
          (tagset_of n t (pc_tags pc) (art (pc_tags pc)) (artMime (pc_tags pc)))
  = Ok tagged →
  process_podcast strptime guess_extension http mutagen cfg n ep pc w
  = (Ok (),
     World (<[outDir pc ++ build_filename n t := tagged]> (files w)) (dirs w)
       (trace w
        ++ [EvPrint (py "Working on " ++ fmt (t_title t))]
        ++ (if found is None then [EvPrint (py "No Episode Art Found!")] else [])
        ++ [EvPrint (py "Downloading " ++ build_filename n t);
            EvGet u 30;
            EvPrint (py "Saving " ++ build_filename n t);
            EvWrite (outDir pc ++ build_filename n t) (content html);
            EvWrite (outDir pc ++ build_filename n t) tagged])).
Proof.
  intros Hwet Ht Hu Habsent Hfind Hnone Hhttp Hmut.
  rewrite (download_start strptime guess_extension http mutagen cfg Hwet
             n ep pc w t u Ht Hu Habsent).
  rewrite bind_lift, Hfind.
  destruct Hnone as [->|[->| ->]]; cbv beta iota.
  all: erewrite bind_ok; [|reflexivity]; cbv beta iota.
  all: erewrite bind_ok; [|reflexivity]; cbv beta iota.
  all: rewrite (download_tail http mutagen n pc w t u Habsent) by done.
  all: unfold download_outcome; rewrite Hhttp, Hmut.
  all: cbn [trace log]; by rewrite <- !app_assoc.
Qed.

Lemma download_without_episode_art_witness :
  process_podcast Demo.strptime Demo.guess_extension Demo.http Demo.mutagen
    (Demo.config_of false [Demo.show]) 1 Demo.ep_jan (demo_pc [Demo.ep_jan])
    Demo.empty_world
  = (Ok (),
     World (<[py "/pod/Show/" ++ py "2023-01-10_ep1_One.mp3" := "ID3one"%string]> ∅)
       ∅
       ([] ++ [EvPrint (py "Working on " ++ py "One")]
        ++ [EvPrint (py "No Episode Art Found!")]
        ++ [EvPrint (py "Downloading " ++ py "2023-01-10_ep1_One.mp3");
            EvGet (py "http://cdn.example/one.mp3?src=feed") 30;
            EvPrint (py "Saving " ++ py "2023-01-10_ep1_One.mp3");
            EvWrite (py "/pod/Show/" ++ py "2023-01-10_ep1_One.mp3") "one";
            EvWrite (py "/pod/Show/" ++ py "2023-01-10_ep1_One.mp3") "ID3one"])).
Proof.
  refine (download_without_episode_art Demo.strptime Demo.guess_extension
            Demo.http Demo.mutagen (Demo.config_of false [Demo.show]) 1
            Demo.ep_jan (demo_pc [Demo.ep_jan]) Demo.empty_world
            {| t_title := Some (py "One"); t_date := Demo.date 2023 1 10 8;
               t_rawURL := Some (py "http://cdn.example/one.mp3?src=feed");
               t_extension := Some (py ".mp3") |}
            (py "http://cdn.example/one.mp3?src=feed") None
            {| content := "one"; content_type := Some (py "audio/mpeg") |}
            "ID3one"%string _ _ _ _ _ _ _ _).
  - reflexivity.
  - vm_compute. reflexivity.
  - vm_compute. reflexivity.
  - intros [Hin|Hin]; cbn [files dirs Demo.empty_world] in Hin.
    + rewrite dom_empty_L in Hin. by apply not_elem_of_empty in Hin.
    + by apply not_elem_of_empty in Hin.
  - vm_compute. reflexivity.
  - by left.
  - vm_compute. reflexivity.
  - vm_compute. reflexivity.
Defined.

(** X16: an episode with artwork of its own (dry-run off, path absent,
    no error) costs exactly two fetches, the artwork first and then the
    media, both with timeout 30; the picture handed to the tagger is the
    fetched artwork with the content type of its response. *)
Theorem download_with_episode_art strptime guess_extension http mutagen cfg
    (n : nat) (ep : episode) (pc : podcast_config) (w : world)
    (t : episode_tags) (u : pystr) (c : char) (href art_url mime : pystr)
    (eart html : response) (tagged : bytes) :
  dryRun cfg = false →
  read_tags strptime guess_extension ep = Ok t →
  url_filter (episodeUrlFilter (pc_podcast pc)) (of_opt (t_rawURL t))
  = Ok (VStr u) →
  ¬ present (outDir pc ++ build_filename n t) w →
  find_itunes (namespaces pc) (ep_images ep) = Ok (Some (Some (c :: href))) →
  url_filter (artUrlFilter (pc_podcast pc)) (VStr (c :: href))
  = Ok (VStr art_url) →
  http art_url = Some eart →
  content_type eart = Some mime →
  http u = Some html →
  mutagen (content html) (tagset_of n t (pc_tags pc) (content eart) mime)
  = Ok tagged →
  process_podcast strptime guess_extension http mutagen cfg n ep pc w
  = (Ok (),
     World (<[outDir pc ++ build_filename n t := tagged]> (files w)) (dirs w)
       (trace w
        ++ [EvPrint (py "Working on " ++ fmt (t_title t));
            EvGet art_url 30;
            EvPrint (py "Downloading " ++ build_filename n t);
            EvGet u 30;
            EvPrint (py "Saving " ++ build_filename n t);
            EvWrite (outDir pc ++ build_filename n t) (content html);
            EvWrite (outDir pc ++ build_filename n t) tagged])).
Proof.
  intros Hwet Ht Hu Habsent Hfind Hart Heart Hmime Hhttp Hmut.
  rewrite (download_start strptime guess_extension http mutagen cfg Hwet
             n ep pc w t u Ht Hu Habsent).
  rewrite bind_lift, Hfind. cbv beta iota.
  erewrite bind_ok; [|reflexivity]. cbv beta iota.
  erewrite bind_ok.
  2:{ rewrite bind_lift, Hart.
      erewrite bind_ok; [|by apply requests_get_ok].
      rewrite bind_lift, Hmime. reflexivity. }
  cbv beta iota.
  rewrite (download_tail http mutagen n pc w t u Habsent) by done.
  unfold download_outcome. rewrite Hhttp, Hmut.
  cbn [trace log]. by rewrite <- !app_assoc.
Qed.

Lemma download_with_episode_art_witness :
  process_podcast Demo.strptime Demo.guess_extension http_with_art Demo.mutagen
    (Demo.config_of false [Demo.show]) 1 ep_with_art (demo_pc [ep_with_art])
    Demo.empty_world
  = (Ok (),
     World (<[py "/pod/Show/" ++ py "2023-01-10_ep1_One.mp3" := "ID3one"%string]> ∅)
       ∅
       ([] ++ [EvPrint (py "Working on " ++ py "One");
               EvGet (py "http://cdn.example/one.png") 30;
               EvPrint (py "Downloading " ++ py "2023-01-10_ep1_One.mp3");
               EvGet (py "http://cdn.example/one.mp3?src=feed") 30;
               EvPrint (py "Saving " ++ py "2023-01-10_ep1_One.mp3");
               EvWrite (py "/pod/Show/" ++ py "2023-01-10_ep1_One.mp3") "one";
               EvWrite (py "/pod/Show/" ++ py "2023-01-10_ep1_One.mp3") "ID3one"])).
Proof.
  refine (download_with_episode_art Demo.strptime Demo.guess_extension
            http_with_art Demo.mutagen (Demo.config_of false [Demo.show]) 1
            ep_with_art (demo_pc [ep_with_art]) Demo.empty_world
            {| t_title := Some (py "One"); t_date := Demo.date 2023 1 10 8;
               t_rawURL := Some (py "http://cdn.example/one.mp3?src=feed");
               t_extension := Some (py ".mp3") |}
            (py "http://cdn.example/one.mp3?src=feed")
            104 (py "ttp://cdn.example/one.png")
            (py "http://cdn.example/one.png") (py "image/png")
            {| content := "PNG"; content_type := Some (py "image/png") |}
            {| content := "one"; content_type := Some (py "audio/mpeg") |}
            "ID3one"%string _ _ _ _ _ _ _ _ _ _).
  - reflexivity.
  - vm_compute. reflexivity.
  - vm_compute. reflexivity.
  - intros [Hin|Hin]; cbn [files dirs Demo.empty_world] in Hin.
    + rewrite dom_empty_L in Hin. by apply not_elem_of_empty in Hin.
    + by apply not_elem_of_empty in Hin.
  - vm_compute. reflexivity.
  - vm_compute. reflexivity.
  - vm_compute. reflexivity.
  - reflexivity.
  - vm_compute. reflexivity.
  - vm_compute. reflexivity.
Defined.

Lemma present_same p w w' :
  dirs w' = dirs w → files w' = files w → present p w' → present p w.
Proof. unfold present. by intros -> ->. Qed.

(** X17: when a call for an absent path (dry-run off) raises and yet
    leaves something at that path, what it leaves is the media body as
    fetched, untagged: the tagger raised the exception after the body had
    been written.  Nothing removes the file, and the next call for the
    episode reports it as already downloaded and skips it. *)
Theorem tag_failure_leaves_untagged_file strptime guess_extension http mutagen
    cfg (n : nat) (ep : episode) (pc : podcast_config) (w w' : world)
    (t : episode_tags) (u : pystr) (e : exn) :
  dryRun cfg = false →
  read_tags strptime guess_extension ep = Ok t →
  url_filter (episodeUrlFilter (pc_podcast pc)) (of_opt (t_rawURL t))
  = Ok (VStr u) →
  ¬ present (outDir pc ++ build_filename n t) w →
  process_podcast strptime guess_extension http mutagen cfg n ep pc w
  = (Raise e, w') →
  present (outDir pc ++ build_filename n t) w' →
  ∃ html art_data art_mime,
    http u = Some html
    ∧ mutagen (content html) (tagset_of n t (pc_tags pc) art_data art_mime)
      = Raise e
    ∧ files w' = <[outDir pc ++ build_filename n t := content html]> (files w)
    ∧ dirs w' = dirs w
    ∧ process_podcast strptime guess_extension http mutagen cfg n ep pc w'
      = (Ok (), log (skip_events n t) w').
Proof.
  intros Hwet Ht Hu Habsent Hrun Hpresent.
  destruct (download_cases strptime guess_extension http mutagen cfg Hwet
              n ep pc w t u Ht Hu Habsent)
    as (w1 & evs & Hd & Hf & Htr & [[e' Hcase]|(a & m & Hcase)]);
    rewrite Hcase in Hrun.
  - injection Hrun as _ <-. exfalso. apply Habsent.
    by apply (present_same _ _ w1).
  - unfold download_outcome in Hrun.
    destruct (http u) as [html|] eqn:Hhttp.
    + destruct (mutagen (content html) _) as [tagged|e''] eqn:Hmut; [done|].
      injection Hrun as -> <-. exists html, a, m.
      split_and!; [done..|].
      by apply (process_podcast_skip _ _ _ _ _ Hwet _ _ _ _ t (VStr u)).
    + injection Hrun as _ <-. exfalso. apply Habsent.
      by apply (present_same _ _ w1).
Qed.

Lemma tag_failure_leaves_untagged_file_witness :
  let run := process_podcast Demo.strptime Demo.guess_extension Demo.http
               mutagen_refuses (Demo.config_of false [Demo.show]) 1 Demo.ep_jan
               (demo_pc [Demo.ep_jan]) in
  ∃ html art_data art_mime,
    Demo.http (py "http://cdn.example/one.mp3?src=feed") = Some html
    ∧ mutagen_refuses (content html)
        (tagset_of 1 {| t_title := Some (py "One");
                        t_date := Demo.date 2023 1 10 8;
                        t_rawURL := Some (py "http://cdn.example/one.mp3?src=feed");
                        t_extension := Some (py ".mp3") |}
           (pc_tags (demo_pc [Demo.ep_jan])) art_data art_mime)
      = Raise MutagenError
    ∧ files (run Demo.empty_world).2
      = <[outDir (demo_pc [Demo.ep_jan])
          ++ build_filename 1 {| t_title := Some (py "One");
                                 t_date := Demo.date 2023 1 10 8;
                                 t_rawURL := Some (py "http://cdn.example/one.mp3?src=feed");
                                 t_extension := Some (py ".mp3") |}
          := content html]> (files Demo.empty_world)
    ∧ dirs (run Demo.empty_world).2 = dirs Demo.empty_world
    ∧ run (run Demo.empty_world).2
      = (Ok (),
         log (skip_events 1 {| t_title := Some (py "One");
                               t_date := Demo.date 2023 1 10 8;
                               t_rawURL := Some (py "http://cdn.example/one.mp3?src=feed");
                               t_extension := Some (py ".mp3") |})
             (run Demo.empty_world).2).
Proof.
  intros run.
  refine (tag_failure_leaves_untagged_file Demo.strptime Demo.guess_extension
            Demo.http mutagen_refuses (Demo.config_of false [Demo.show]) 1
            Demo.ep_jan (demo_pc [Demo.ep_jan]) Demo.empty_world
            (run Demo.empty_world).2 _
            (py "http://cdn.example/one.mp3?src=feed") MutagenError
            _ _ _ _ _ _).
  - reflexivity.
  - vm_compute. reflexivity.
  - vm_compute. reflexivity.
  - intros [Hin|Hin]; cbn [files dirs Demo.empty_world] in Hin.
    + rewrite dom_empty_L in Hin. by apply not_elem_of_empty in Hin.
    + by apply not_elem_of_empty in Hin.
  - vm_compute. reflexivity.
  - left. apply (bool_decide_unpack _). vm_compute. reflexivity.
Defined.

(** X18: when the request for the media raises, [process_podcast] writes
    no file and creates no directory; and if the path was absent and
    dry-run off, the call itself raises. *)
Theorem media_fetch_failure_writes_nothing strptime guess_extension http
    mutagen cfg (n : nat) (ep : episode) (pc : podcast_config) (w : world)
    (t : episode_tags) (u : pystr) :
  read_tags strptime guess_extension ep = Ok t →
  url_filter (episodeUrlFilter (pc_podcast pc)) (of_opt (t_rawURL t))
  = Ok (VStr u) →
  http u = None →
  let res := process_podcast strptime guess_extension http mutagen cfg
                             n ep pc w in
  files res.2 = files w ∧ dirs res.2 = dirs w
  ∧ (dryRun cfg = false → ¬ present (outDir pc ++ build_filename n t) w →
     ∃ e, res.1 = Raise e).
Proof.
  intros Ht Hu Hhttp. cbv zeta.
  destruct (dryRun cfg) eqn:Hdry.
  { rewrite (process_podcast_dry strptime guess_extension http mutagen cfg Hdry).
    rewrite Ht, Hu. by split_and!. }
  destruct (decide (present (outDir pc ++ build_filename n t) w)) as [Hp|Habsent].
  { rewrite (process_podcast_skip _ _ _ _ _ Hdry _ _ _ _ t (VStr u) Ht Hu Hp).
    by split_and!. }
  destruct (download_cases strptime guess_extension http mutagen cfg Hdry
              n ep pc w t u Ht Hu Habsent)
    as (w1 & evs & Hd & Hf & Htr & [[e' Hcase]|(a & m & Hcase)]);
    rewrite Hcase.
  - split_and!; [done..|]. by eauto.
  - unfold download_outcome. rewrite Hhttp. split_and!; [done..|]. by eauto.
Qed.

Lemma media_fetch_failure_writes_nothing_witness :
  let res := process_podcast Demo.strptime Demo.guess_extension Demo.http
               Demo.mutagen (Demo.config_of false [Demo.show]) 2 ep_gone
               (demo_pc [Demo.ep_jan; ep_gone]) Demo.empty_world in
  files res.2 = files Demo.empty_world ∧ dirs res.2 = dirs Demo.empty_world
  ∧ (dryRun (Demo.config_of false [Demo.show]) = false →
     ¬ present (outDir (demo_pc [Demo.ep_jan; ep_gone])
                ++ build_filename 2
                     {| t_title := Some (py "Gone");
                        t_date := Demo.date 2023 2 15 8;
                        t_rawURL := Some (py "http://cdn.example/gone.mp3");
                        t_extension := Some (py ".mp3") |})
               Demo.empty_world →
     ∃ e, res.1 = Raise e).
Proof.
  refine (media_fetch_failure_writes_nothing Demo.strptime Demo.guess_extension
            Demo.http Demo.mutagen (Demo.config_of false [Demo.show]) 2 ep_gone
            (demo_pc [Demo.ep_jan; ep_gone]) Demo.empty_world _
            (py "http://cdn.example/gone.mp3") _ _ _).
  - vm_compute. reflexivity.
  - vm_compute. reflexivity.
  - vm_compute. reflexivity.
Defined.


(** ** Sources *)

(** X19: an exception raised while a source is processed ends [main] with
    that exception: the sources before it have been processed, the world
    is left as the failing source left it, and the sources after it are
    not started. *)
Theorem source_failure_aborts strptime guess_extension http fromstring mutagen
    cfg (pods1 : list podcast) (p : podcast) (pods2 : list podcast)
    (w w1 w2 : world) (x : exn) :
  podList cfg = pods1 ++ p :: pods2 →
  for_each (enumerate 0 pods1)
    (λ ip, process_source strptime guess_extension http fromstring mutagen cfg
                          ip.1 ip.2) w = (Ok (), w1) →
  process_source strptime guess_extension http fromstring mutagen cfg
                 (length pods1) p w1 = (Raise x, w2) →
  main strptime guess_extension http fromstring mutagen cfg w = (Raise x, w2).
Proof.
  intros Hpods H1 Hp. unfold main.
  rewrite Hpods, enumerate_app.
  rewrite (for_each_app _ _ _ _ _ H1). cbn [enumerate for_each].
  by apply bind_raise.
Qed.

Lemma source_failure_aborts_witness :
  ∃ w2, Demo.run batch_with_local Demo.empty_world = (Raise OSError, w2).
Proof.
  eexists.
  eapply (source_failure_aborts Demo.strptime Demo.guess_extension Demo.http
            Demo.fromstring Demo.mutagen batch_with_local
            [Demo.show] local_show [Demo.show] Demo.empty_world).
  - reflexivity.
  - vm_compute. reflexivity.
  - vm_compute. reflexivity.
Defined.

Lemma get_rss_fetched (http : pystr → option response) (cfg : config)
    (xml_location : pystr) (w w' : world) (xml : pyval)
    (ns : gmap pystr pystr) :
  get_rss http cfg xml_location w = (Ok (xml, ns), w') →
  ∃ r, http xml_location = Some r ∧ xml = VBytes (content r).
Proof.
  unfold get_rss. case_bool_decide.
  - unfold requests_get, mbind, M_bind, emit, lift, mret, M_ret.
    destruct (http xml_location) as [r|]; [|done]. cbn [require content].
    destruct (decode (content r)) as [text|]; [|done]. cbn [require].
    destruct (map_result _ _) as [entries|]; [|done].
    intros [= <- _ _]. by exists r.
  - unfold read_text, mbind, M_bind, lift, mret, M_ret.
    destruct (files w !! xml_location) as [b|]; [|done].
    by destruct (require UnicodeDecodeError (decode b)).
Qed.

Lemma touches_only_weaken (P Q : pystr → Prop) w w' :
  (∀ q, P q → Q q) → touches_only P w w' → touches_only Q w w'.
Proof. intros HPQ [Hd Hf]. split; [done|]. intros q Hq. apply Hf. auto. Qed.

(** X20: when a source has been processed without error, its directory
    exists and its cover file holds the channel artwork as fetched, that
    is, the body of the response to the URL the parsed feed gives for the
    channel image, under the extension guessed from the content type of
    that response: the episodes processed afterwards have not touched
    it. *)
Theorem source_leaves_cover strptime guess_extension http fromstring mutagen
    cfg (i : nat) (p : podcast) (w w' : world) :
  process_source strptime guess_extension http fromstring mutagen cfg i p w
  = (Ok (), w') →
  outPath cfg ++ name p ++ py "/" ∈ dirs w'
  ∧ ∃ doc root url r mime,
      http (rssFeedUrl p) = Some doc
      ∧ fromstring (VBytes (content doc)) = Some root
      ∧ channel_image_url root = Some url
      ∧ http url = Some r
      ∧ content_type r = Some mime
      ∧ files w' !! (outPath cfg ++ name p ++ py "/" ++ py "cover"
                     ++ fmt (guess_extension mime))
        = Some (content r).
Proof.
  intros H. unfold process_source in H. cbv zeta in H.
  inv_bind H x1 w1 Hprint. apply print_ok_inv in Hprint as ->.
  inv_bind H d w2 Hd. unfold isdir in Hd. injection Hd as <- <-.
  inv_bind H x3 w3 Hmk.
  inv_bind H x4 w4 Hrss. destruct x4 as [rss_xml ns].
  inv_bind H root w5 Hroot. apply lift_ok_inv in Hroot as [Hroot ->].
  inv_bind H url w6 Hurl. apply lift_ok_inv in Hurl as [Hurl ->].
  inv_bind H r w7 Hget.
  inv_bind H sorted w8 Hsort. apply lift_ok_inv in Hsort as [Hsort ->].
  inv_bind H art_mime w9 Hmime. apply lift_ok_inv in Hmime as [Hmime ->].
  inv_bind H author w10 Hauth. apply lift_ok_inv in Hauth as [Hauth ->].
  inv_bind H x11 w11 Hwr. destruct x3, x11.
  set (out_dir := outPath cfg ++ name p ++ py "/") in *.
  set (cover := out_dir ++ py "cover" ++ fmt (guess_extension art_mime)) in *.
  assert (out_dir ∈ dirs w3) as Hdir3.
  { cbn [dirs log] in Hmk.
    destruct (bool_decide (out_dir ∈ dirs w)) eqn:E; cbn [negb] in Hmk.
    - apply bool_decide_eq_true in E. by injection Hmk as <-.
    - unfold makedirs in Hmk. case_bool_decide; [done|].
      injection Hmk as <-. cbn [dirs]. set_solver. }
  pose proof (get_rss_replay _ _ _ _ _ _ Hrss w3) as Hrss3.
  rewrite Hrss in Hrss3. injection Hrss3 as ->.
  pose proof (requests_get_replay _ _ _ _ _ _ Hget
                (log [EvGet (rssFeedUrl p) 120] w3)) as Hget3.
  rewrite Hget in Hget3. injection Hget3 as ->.
  assert (http url = Some r) as Hhttp.
  { revert Hget. unfold requests_get, mbind, M_bind, emit, lift.
    destruct (http url); cbn [require]; [|done]. by intros [= ->]. }
  unfold write_file in Hwr. case_bool_decide as Hnd; [done|].
  injection Hwr as <-.
  assert (keeps (touches_only (λ q, q ≠ cover))
            (process_episodes strptime guess_extension http mutagen cfg
               {| pc_podcast := p; outDir := out_dir; episodes := sorted;
                  namespaces := ns;
                  pc_tags := {| album := channel_title root; art := content r;
                                artMime := art_mime; artist := author;
                                album_artist := channel_title root;
                                copyright := channel_copyright root |} |}))
    as Hk.
  { apply keeps_for_each; [apply _|]. intros ie w0.
    eapply touches_only_weaken; [|apply process_podcast_touches].
    intros q Hq. by apply (full_path_cover_ne _ _ _ _ _ _ _ Hq). }
  destruct (keeps_run _ _ _ _ _ Hk H) as [Hd' Hf'].
  split.
  - rewrite Hd'. exact Hdir3.
  - destruct (get_rss_fetched _ _ _ _ _ _ _ Hrss) as (doc & Hdoc & Hxml).
    exists doc, root, url, r, art_mime. split_and!.
    { exact Hdoc. }
    { rewrite <- Hxml. destruct (fromstring rss_xml); [|done].
      by injection Hroot as ->. }
    { destruct (channel_image_url root); [|done]. by injection Hurl as ->. }
    { exact Hhttp. }
    { destruct (content_type r); [|done]. by injection Hmime as ->. }
    replace (outPath cfg ++ name p ++ py "/" ++ py "cover"
             ++ fmt (guess_extension art_mime)) with cover
      by (subst cover out_dir; by rewrite <- !app_assoc).
    rewrite Hf' by (intros Hne; by apply Hne).
    cbn [files]. apply lookup_insert_eq.
Qed.

Lemma source_leaves_cover_witness :
  let w' := (process_source Demo.strptime Demo.guess_extension Demo.http
               Demo.fromstring Demo.mutagen (Demo.config_of false [Demo.show])
               0 Demo.show Demo.empty_world).2 in
  outPath (Demo.config_of false [Demo.show]) ++ name Demo.show ++ py "/"
    ∈ dirs w'
  ∧ ∃ doc root url r mime,
      Demo.http (rssFeedUrl Demo.show) = Some doc
      ∧ Demo.fromstring (VBytes (content doc)) = Some root
      ∧ channel_image_url root = Some url
      ∧ Demo.http url = Some r
      ∧ content_type r = Some mime
      ∧ files w' !! (outPath (Demo.config_of false [Demo.show])
                     ++ name Demo.show ++ py "/" ++ py "cover"
                     ++ fmt (Demo.guess_extension mime))
        = Some (content r).
Proof.
  apply (source_leaves_cover Demo.strptime Demo.guess_extension Demo.http
           Demo.fromstring Demo.mutagen (Demo.config_of false [Demo.show])
           0 Demo.show Demo.empty_world).
  vm_compute. reflexivity.
Defined.

(** ** Start-up *)

Example startup_outPath_demo :
  startup_outPath (py "/pod") = py "/pod/"
  ∧ startup_outPath (py "/pod/") = py "/pod//"
  ∧ startup_outPath (py "/p") = py "/p".
Proof. split_and!; by vm_compute. Qed.

(** X21: the start-up code appends ['/'] to the expanded [outPath] in
    every case but one, a path of exactly two characters that starts with
    ['/'], which it leaves as it is; in particular a path that already
    ends with ['/'] gets a second one. *)
Theorem startup_outPath_cases (s : pystr) :
  (startup_outPath s = s ∧ ∃ c, s = [47; c])
  ∨ (startup_outPath s = s ++ [47] ∧ ∀ c, s ≠ [47; c]).
Proof.
  unfold startup_outPath. replace (py "/") with [47] by done.
  case_bool_decide as Hs.
  - left. split; [done|].
    destruct s as [|a [|b [|c s]]]; cbn in Hs; try done.
    injection Hs as ->. by exists b.
  - right. split; [done|]. intros c ->. by apply Hs.
Qed.
